(** * git-credential-msal: a shallow embedding of [main.py]

    The development follows the source file top-down: the Python string
    primitives the helper relies on, the three compiled regular expressions,
    the credential-protocol parser, the capability gate, identity resolution,
    the two cache families, the acquisition orchestration and [main]; the
    properties come after the definitions.

    Modelling choices:
    - a Python [str] is a [string], one [ascii] per code point, so the model
      covers text whose code points are below 256; a [dict] is a [gmap];
    - a function that can raise returns a [res]; code that reads or writes
      the secure store, the cache directory or the two output streams is a
      state transformer on [World] that returns, raises or exits;
    - the libraries ([msal], [keyring], [pickle], [jwt]), the decoding of
      bytes and the [git config] subprocess are parameters, gathered in
      [Env]; the only failure of the secure store that is modelled is the
      one the source handles, [NoKeyringError];
    - the cache directory is a flat table from path to content in which a
      write always succeeds, which is how the file system treats a cache
      name that is a file name ([plain_name]); what is proved about the
      content of a file is stated for such names. *)

From Stdlib Require Import Ascii String ZArith Lia Bool.
From stdpp Require Import base option list gmap strings pretty.

(** ** Python string primitives *)

Module PyStr.

(** [str.isspace] on one code point below 256, which is also what [\s]
    matches in a [str] pattern: TAB..CR, FS..US, the blank, NEL and the
    no-break space. *)
Definition isspace (c : ascii) : bool :=
  let n := nat_of_ascii c in
  ((9 <=? n) && (n <=? 13)) || ((28 <=? n) && (n <=? 32))
  || (n =? 133) || (n =? 160).

(** [bytes.isspace]: the six ASCII whitespace bytes only. *)
Definition isspace_bytes (c : ascii) : bool :=
  let n := nat_of_ascii c in
  ((9 <=? n) && (n <=? 13)) || (n =? 32).

(** [s.rstrip()] with the character test [sp]: drop the longest suffix made
    of whitespace only. *)
Fixpoint rstrip_with (sp : ascii -> bool) (s : string) : string :=
  match s with
  | EmptyString => EmptyString
  | String c s' =>
      match rstrip_with sp s' with
      | EmptyString => if sp c then EmptyString else String c EmptyString
      | r => String c r
      end
  end.

Definition rstrip : string -> string := rstrip_with isspace.
Definition rstrip_bytes : string -> string := rstrip_with isspace_bytes.

(** [s.partition(sep)] for a one-character separator, [None] when the
    separator does not occur. *)
Fixpoint partition (sep : ascii) (s : string) : option (string * string) :=
  match s with
  | EmptyString => None
  | String c s' =>
      if Ascii.eqb c sep then Some (EmptyString, s')
      else match partition sep s' with
           | Some (a, b) => Some (String c a, b)
           | None => None
           end
  end.

(** [s.split(sep=sep, maxsplit=1)]: one or two pieces. *)
Definition split1 (sep : ascii) (s : string) : list string :=
  match partition sep s with
  | Some (a, b) => [a; b]
  | None => [s]
  end.

(** [s.startswith(p)], and the remainder after the prefix. *)
Fixpoint strip_prefix (p s : string) : option string :=
  match p with
  | EmptyString => Some s
  | String a p' =>
      match s with
      | EmptyString => None
      | String b s' => if Ascii.eqb a b then strip_prefix p' s' else None
      end
  end.

Definition startswith (p s : string) : bool :=
  match strip_prefix p s with Some _ => true | None => false end.

(** [s[:n]] and [s[n:]] for [n >= 0]. *)
Fixpoint take (n : nat) (s : string) : string :=
  match n, s with
  | S n', String c s' => String c (take n' s')
  | _, _ => EmptyString
  end.

Fixpoint drop (n : nat) (s : string) : string :=
  match n, s with
  | S n', String _ s' => drop n' s'
  | _, _ => s
  end.

(** [s.endswith(p)] *)
Definition endswith (p s : string) : bool :=
  (String.length p <=? String.length s)%nat
  && String.eqb (drop (String.length s - String.length p) s) p.

(** [s[:-n]] for [n > 0] *)
Definition drop_last (n : nat) (s : string) : string :=
  take (String.length s - n) s.

(** [needle in hay] on two [str] values: substring containment. *)
Fixpoint contains (needle hay : string) : bool :=
  startswith needle hay
  || match hay with
     | EmptyString => false
     | String _ hay' => contains needle hay'
     end.

(** Iterating over a [str] yields its characters as one-character
    strings. *)
Fixpoint chars (s : string) : list string :=
  match s with
  | EmptyString => []
  | String c s' => String c EmptyString :: chars s'
  end.

(** [repr(s)] for a [str] of code points below 256: single quotes unless
    the text holds a single quote and no double quote; backslash, the
    chosen quote and the characters that are not printable are escaped. *)
Definition hex_digit (n : nat) : ascii :=
  ascii_of_nat (if (n <? 10)%nat then 48 + n else 87 + n).

Definition repr_char (q : ascii) (c : ascii) : string :=
  let n := nat_of_ascii c in
  if Ascii.eqb c q || Ascii.eqb c "\"%char then String "\"%char (String c EmptyString)
  else if (n =? 9)%nat then "\t"
  else if (n =? 10)%nat then "\n"
  else if (n =? 13)%nat then "\r"
  else if (n <? 32)%nat || ((127 <=? n)%nat && (n <=? 160)%nat) || (n =? 173)%nat then
    String "\"%char (String "x"%char
      (String (hex_digit (n / 16)) (String (hex_digit (n mod 16)) EmptyString)))
  else String c EmptyString.

Fixpoint repr_body (q : ascii) (s : string) : string :=
  match s with
  | EmptyString => EmptyString
  | String c s' => repr_char q c +:+ repr_body q s'
  end.

Definition repr (s : string) : string :=
  let q := if contains "'" s && negb (contains (String "034"%char EmptyString) s)
           then "034"%char else "'"%char in
  String q (repr_body q s +:+ String q EmptyString).

(** [repr(l)] for a list of [str]. *)
Definition repr_list (l : list string) : string :=
  "[" +:+ String.concat ", " (map repr l) +:+ "]".

End PyStr.

(** ** Regular expressions

    The fragment of Python's [re] syntax that the three module-level patterns
    use, with the backtracking semantics of [re]: alternatives are tried left
    to right, a greedy repetition tries the longest run first, a lazy one the
    shortest, and the first way of matching the whole pattern decides the
    groups.  Repetition is only ever applied to a character class in the
    source, which keeps the matcher structurally recursive. *)

Module Regex.

Inductive cls :=
| Dot     (* [.]  : anything but a newline *)
| Space.  (* [\s] *)

Inductive re :=
| Bol                      (* [^] *)
| Lit (l : string)         (* literal text *)
| StarG (c : cls)          (* [c*]  *)
| StarL (c : cls)          (* [c*?] *)
| PlusG (c : cls)          (* [c+]  *)
| Seq (r1 r2 : re)
| Alt (r1 r2 : re)         (* [r1|r2] *)
| Grp (n : nat) (r : re).  (* capturing group number [n + 1] *)

Definition cls_match (c : cls) (a : ascii) : bool :=
  match c with
  | Dot => negb (Ascii.eqb a "010"%char)
  | Space => PyStr.isspace a
  end.

(** What [m.groups()] returns: one entry per group, [None] for a group
    that did not take part in the match. *)
Definition groups := list (option string).

(** Matcher state: offset from the start of the subject, text still to be
    read, groups set so far. *)
Record st := St { pos : nat; rest : string; caps : groups }.

Fixpoint star_greedy (c : cls) (g : groups) (p : nat) (s : string)
    (k : st -> option groups) : option groups :=
  match s with
  | String a s' =>
      if cls_match c a then
        match star_greedy c g (S p) s' k with
        | Some r => Some r
        | None => k (St p s g)
        end
      else k (St p s g)
  | EmptyString => k (St p s g)
  end.

Fixpoint star_lazy (c : cls) (g : groups) (p : nat) (s : string)
    (k : st -> option groups) : option groups :=
  match k (St p s g) with
  | Some r => Some r
  | None =>
      match s with
      | String a s' => if cls_match c a then star_lazy c g (S p) s' k else None
      | EmptyString => None
      end
  end.

Fixpoint run (r : re) (σ : st) (k : st -> option groups) : option groups :=
  match r with
  | Bol => if (pos σ =? 0)%nat then k σ else None
  | Lit l =>
      match PyStr.strip_prefix l (rest σ) with
      | Some s' => k (St (pos σ + String.length l) s' (caps σ))
      | None => None
      end
  | StarG c => star_greedy c (caps σ) (pos σ) (rest σ) k
  | StarL c => star_lazy c (caps σ) (pos σ) (rest σ) k
  | PlusG c =>
      match rest σ with
      | String a s' =>
          if cls_match c a then star_greedy c (caps σ) (S (pos σ)) s' k else None
      | EmptyString => None
      end
  | Seq r1 r2 => run r1 σ (fun σ' => run r2 σ' k)
  | Alt r1 r2 =>
      match run r1 σ k with
      | Some g => Some g
      | None => run r2 σ k
      end
  | Grp n r1 =>
      run r1 σ (fun σ' =>
        k (St (pos σ') (rest σ')
              (<[n := Some (PyStr.take (pos σ' - pos σ) (rest σ))]> (caps σ'))))
  end.

(** [pattern.match(s)] for a pattern with [n] groups: anchored at the start
    of [s], not at its end. [None] is Python's [None]; otherwise the value
    is [m.groups()]. *)
Definition re_match (n : nat) (r : re) (s : string) : option groups :=
  run r (St 0 s (replicate n None)) (fun σ => Some (caps σ)).

End Regex.

Import Regex.

Declare Scope re_scope.
Delimit Scope re_scope with re.
Bind Scope re_scope with re.
Infix "⋅" := Seq (at level 40, left associativity) : re_scope.
Infix "∣" := Alt (at level 50, left associativity) : re_scope.

(** ** Module-level constants of [main.py] *)

Definition dquote : string := String "034"%char EmptyString.

(** The compiled pattern "^Bearer(?:\s*|\s+.+)". *)
Definition wwwauth_bearer_matcher : re :=
  (Bol ⋅ Lit "Bearer" ⋅ (StarG Space ∣ PlusG Space ⋅ PlusG Dot))%re.

(** The shared shape of the two parameter patterns: a greedy run of any
    characters, the key, then one of three alternatives in this order:
    [=] and a lazily matched group between double quotes; [=] and a lazily
    matched group up to a comma; [=] and a greedy group. *)
Definition param_alternatives : re :=
  (Lit ("=" +:+ dquote) ⋅ Grp 0 (StarL Dot) ⋅ Lit dquote
   ∣ Lit "=" ⋅ Grp 1 (StarL Dot) ⋅ Lit ","
   ∣ Lit "=" ⋅ Grp 2 (StarG Dot))%re.

Definition wwwauth_param_matcher (key : string) : re :=
  (StarG Dot ⋅ Lit key ⋅ param_alternatives)%re.

Definition wwwauth_client_id_matcher : re := wwwauth_param_matcher "msal-client-id".
Definition wwwauth_tenant_id_matcher : re := wwwauth_param_matcher "msal-tenant-id".

(** ** Values and exceptions *)

(** A value stored in [helper_pairs]: a [str] for a scalar attribute, a list
    of [str] for a multi-valued one. *)
Inductive value :=
| VStr (s : string)
| VList (l : list string).

Inductive exn :=
| ValueError | AttributeError | KeyError | IndexError | DecodeError
| UnicodeDecodeError | OverflowError.

(** A computation that returns or raises. *)
Inductive res (A : Type) :=
| Ok (a : A)
| Err (e : exn).
Arguments Ok {A} a.
Arguments Err {A} e.

Definition res_bind {A B} (x : res A) (f : A -> res B) : res B :=
  match x with Ok a => f a | Err e => Err e end.

Notation "x <-! c ;; k" := (res_bind c (fun x => k))
  (at level 100, c at next level, right associativity).

(** [d[k]] *)
Definition getitem {V} (d : gmap string V) (k : string) : res V :=
  match d !! k with Some v => Ok v | None => Err KeyError end.

(** [k in d] *)
Definition has_key {V} (d : gmap string V) (k : string) : bool :=
  bool_decide (is_Some (d !! k)).

(** [x in v]: substring test on a [str], membership on a list. *)
Definition py_in (x : string) (v : value) : bool :=
  match v with
  | VStr s => PyStr.contains x s
  | VList l => bool_decide (x ∈ l)
  end.

(** [for x in v] *)
Definition py_iter (v : value) : list string :=
  match v with
  | VStr s => PyStr.chars s
  | VList l => l
  end.

(** [f"{v}"] *)
Definition py_format (v : value) : string :=
  match v with
  | VStr s => s
  | VList l => PyStr.repr_list l
  end.

(** ** [read_stdin_pairs] *)

(** The body of the loop, on one line as [sys.stdin] yields it. *)
Definition read_stdin_pair (kvs : gmap string value) (line : string)
  : res (gmap string value) :=
  match PyStr.split1 "=" (PyStr.rstrip line) with
  | [key; value] =>
      if PyStr.endswith "[]" key then
        let key := PyStr.drop_last 2 key in
        let kvs :=
          if negb (has_key kvs key) || String.eqb value EmptyString
          then <[key := VList []]> kvs else kvs in
        match kvs !! key with
        | Some (VList l) => Ok (<[key := VList (l ++ [value])]> kvs)
        | Some (VStr _) => Err AttributeError  (* [str] has no [append] *)
        | None => Err KeyError
        end
      else Ok (<[key := VStr value]> kvs)
  | _ => Err ValueError  (* the unpacking [[key, value] = ...] *)
  end.

Fixpoint read_stdin_from (kvs : gmap string value) (lines : list string)
  : res (gmap string value) :=
  match lines with
  | [] => Ok kvs
  | line :: lines' =>
      kvs' <-! read_stdin_pair kvs line;; read_stdin_from kvs' lines'
  end.

Definition read_stdin_pairs (stdin : list string) : res (gmap string value) :=
  read_stdin_from ∅ stdin.

(** ** The capability gate *)

Definition authtype_accepted (helper_pairs : gmap string value) : bool :=
  if negb (has_key helper_pairs "capability") then false
  else match helper_pairs !! "capability" with
       | Some v => py_in "authtype" v
       | None => false
       end.

Definition bearer_match (auth : string) : bool :=
  bool_decide (is_Some (re_match 0 wwwauth_bearer_matcher auth)).

Definition bearer_accepted (helper_pairs : gmap string value) : bool :=
  if negb (has_key helper_pairs "wwwauth") then false
  else match helper_pairs !! "wwwauth" with
       | Some v => existsb bearer_match (py_iter v)
       | None => false
       end.

(** ** Parsing the challenge parameters *)

(** [for subgroup in m.groups(): if subgroup is not None: x = subgroup; break]
    leaves [x] as it was when every group is [None]. *)
Fixpoint first_subgroup (g : groups) (x : option string) : option string :=
  match g with
  | [] => x
  | Some v :: _ => Some v
  | None :: g' => first_subgroup g' x
  end.

(** The loop of [extract_entra_ids_from_wwwauth] over the challenge values,
    with the two loop-carried variables. *)
Fixpoint wwwauth_loop (auths : list string)
    (msal_client_id msal_tenant_id : option string)
  : option string * option string :=
  match auths with
  | [] => (msal_client_id, msal_tenant_id)
  | auth :: auths' =>
      if bearer_match auth then
        match re_match 3 wwwauth_client_id_matcher auth,
              re_match 3 wwwauth_tenant_id_matcher auth with
        | Some client_groups, Some tenant_groups =>
            let msal_client_id := first_subgroup client_groups msal_client_id in
            let msal_tenant_id := first_subgroup tenant_groups msal_tenant_id in
            match msal_client_id, msal_tenant_id with
            | Some _, Some _ => (msal_client_id, msal_tenant_id)  (* break *)
            | _, _ => wwwauth_loop auths' None None
            end
        | _, _ => wwwauth_loop auths' msal_client_id msal_tenant_id  (* continue *)
        end
      else wwwauth_loop auths' msal_client_id msal_tenant_id
  end.

Definition extract_entra_ids_from_wwwauth (helper_pairs : gmap string value)
  : res (option string * option string) :=
  protocol <-! getitem helper_pairs "protocol";;
  host <-! getitem helper_pairs "host";;
  let url := py_format protocol +:+ "://" +:+ py_format host in
  wwwauth <-! getitem helper_pairs "wwwauth";;
  Ok (wwwauth_loop (py_iter wwwauth) None None).

(** ** The process and its collaborators *)

(** The secure store ([keyring]): either no backend at all, in which case
    every call raises [NoKeyringError], or a table from (service, user name)
    to password.  The cache directory is a flat table from path to content in
    which every write succeeds. *)
Record World := mkWorld {
  keyring : option (gmap (string * string) string);
  files : gmap string string;
  stdout : list string;
  stderr : list string;
  stdout_inheritable : bool;
}.

(** How a run of a piece of code ends: it returns, an exception escapes it,
    or [exit(code)] was called. *)
Inductive outcome (A : Type) :=
| Ret (a : A)
| Raise (e : exn)
| Exit (code : Z).
Arguments Ret {A} a.
Arguments Raise {A} e.
Arguments Exit {A} code.

Definition M (A : Type) : Type := World -> outcome A * World.

Definition ret {A} (a : A) : M A := fun w => (Ret a, w).
Definition bind {A B} (c : M A) (f : A -> M B) : M B :=
  fun w => match c w with
           | (Ret a, w') => f a w'
           | (Raise e, w') => (Raise e, w')
           | (Exit z, w') => (Exit z, w')
           end.
Definition raise {A} (e : exn) : M A := fun w => (Raise e, w).
Definition exit {A} (code : Z) : M A := fun w => (Exit code, w).
Definition lift {A} (r : res A) : M A :=
  match r with Ok a => ret a | Err e => raise e end.
Definition when (b : bool) (c : M unit) : M unit := if b then c else ret tt.

Notation "x <- c ;; k" := (bind c (fun x => k))
  (at level 100, c at next level, right associativity).
Notation "c ;; k" := (bind c (fun _ => k))
  (at level 100, right associativity).

Definition print (line : string) : M unit :=
  fun w => (Ret tt, mkWorld (keyring w) (files w) (stdout w ++ [line]) (stderr w)
                            (stdout_inheritable w)).
Definition print_stderr (line : string) : M unit :=
  fun w => (Ret tt, mkWorld (keyring w) (files w) (stdout w) (stderr w ++ [line])
                            (stdout_inheritable w)).
Definition set_inheritable_stdout (b : bool) : M unit :=
  fun w => (Ret tt, mkWorld (keyring w) (files w) (stdout w) (stderr w) b).

(** [open(path).read()] inside [try: ... except: return None] *)
Definition read_file (path : string) : M (option string) :=
  fun w => (Ret (files w !! path), w).
(** [open(path, "w").write(data)], the directory having been made.  The
    write is taken to succeed, as it does when the last part of the path is
    a file name in that directory. *)
Definition write_file (path data : string) : M unit :=
  fun w => (Ret tt, mkWorld (keyring w) (<[path := data]> (files w)) (stdout w)
                            (stderr w) (stdout_inheritable w)).

(** [keyring.get_password(service, name)]: [inl] is the returned value
    ([None] for a missing entry), [inr tt] stands for [NoKeyringError]. *)
Definition keyring_get_password (service name : string)
  : M (option string + unit) :=
  fun w => match keyring w with
           | Some k => (Ret (inl (k !! (service, name))), w)
           | None => (Ret (inr tt), w)
           end.
(** [keyring.set_password(service, name, data)]: [false] stands for
    [NoKeyringError]. *)
Definition keyring_set_password (service name data : string) : M bool :=
  fun w => match keyring w with
           | Some k =>
               (Ret true, mkWorld (Some (<[(service, name) := data]> k)) (files w)
                                  (stdout w) (stderr w) (stdout_inheritable w))
           | None => (Ret false, w)
           end.

(** [os.path.join(a, b)] on POSIX *)
Definition path_join (a b : string) : string :=
  if PyStr.startswith "/" b then b
  else if String.eqb a EmptyString || PyStr.endswith "/" a then a +:+ b
  else a +:+ "/" +:+ b.

(** Truthiness of an optional [str]: [None] and the empty text are false. *)
Definition truthy (data : option string) : bool :=
  match data with
  | Some s => negb (String.eqb s EmptyString)
  | None => false
  end.

(** A [dict] with text values, as the broker returns them (results, device
    flows, accounts, cache entries). *)
Abbreviation dict := (gmap string string).

(** The application object: what [PublicClientApplication] is bound to, apart
    from the two cache objects, which are threaded explicitly below because
    the broker mutates them in place. *)
Record App := mkApp { app_client_id : string; app_authority : string }.

(** The [msal] package, as far as this file calls it.  [TC] is the type of a
    [SerializableTokenCache] object, [HC] that of the HTTP cache dictionary. *)
Record Msal (TC HC : Type) := mkMsal {
  new_token_cache : TC;
  deserialize : TC -> string -> TC;
  serialize : TC -> string * TC;
  has_state_changed : TC -> bool;
  cache_find_id_token : TC -> string -> list dict;
  get_accounts : App -> TC * HC -> list dict * (TC * HC);
  acquire_token_silent :
    App -> list string -> dict -> TC * HC -> option dict * (TC * HC);
  initiate_device_flow : App -> list string -> TC * HC -> dict * (TC * HC);
  acquire_token_by_device_flow : App -> dict -> TC * HC -> dict * (TC * HC);
  acquire_token_interactive :
    App -> list string -> string -> TC * HC -> dict * (TC * HC);
}.
Arguments new_token_cache {TC HC}.
Arguments deserialize {TC HC}.
Arguments serialize {TC HC}.
Arguments has_state_changed {TC HC}.
Arguments cache_find_id_token {TC HC}.
Arguments get_accounts {TC HC}.
Arguments acquire_token_silent {TC HC}.
Arguments initiate_device_flow {TC HC}.
Arguments acquire_token_by_device_flow {TC HC}.
Arguments acquire_token_interactive {TC HC}.

(** Everything else the process is given: the cache directory, the
    [git config --get-urlmatch KEY URL] subprocess (return code and the bytes
    of its standard output), [bytes.decode()] (UTF-8, which raises
    [UnicodeDecodeError] on bytes that are not UTF-8), [pickle] on HTTP-cache
    dictionaries, and [jwt.decode] without signature verification (the
    claims of the payload that are integers). *)
Record Env (TC HC : Type) := mkEnv {
  cache_dir : string;
  git_config : string -> string -> Z * string;
  bytes_decode : string -> res string;
  msal : Msal TC HC;
  empty_http_cache : HC;
  pickle_dumps : HC -> string;
  pickle_loads : string -> option HC;
  jwt_decode : string -> res (gmap string Z);
}.
Arguments cache_dir {TC HC}.
Arguments git_config {TC HC}.
Arguments bytes_decode {TC HC}.
Arguments msal {TC HC}.
Arguments empty_http_cache {TC HC}.
Arguments pickle_dumps {TC HC}.
Arguments pickle_loads {TC HC}.
Arguments jwt_decode {TC HC}.

Record Args := mkArgs { command : string; device_code : bool; insecure : bool }.

Section Helper.

Context {TC HC : Type} (env : Env TC HC).

(** *** Configuration lookup *)

Definition git_config_get_urlmatch (url key : string) : res (option string) :=
  let '(returncode, out) := git_config env key url in
  if negb (returncode =? 0)%Z then Ok None
  else
    config_value <-! bytes_decode env (PyStr.rstrip_bytes out);;
    Ok (if String.eqb config_value EmptyString then None else Some config_value).

Definition extract_entra_ids_from_git_config (helper_pairs : gmap string value)
  : res (option string * option string) :=
  protocol <-! getitem helper_pairs "protocol";;
  host <-! getitem helper_pairs "host";;
  let url := py_format protocol +:+ "://" +:+ py_format host in
  msal_client_id <-! git_config_get_urlmatch url "credential.msalClientId";;
  msal_tenant_id <-! git_config_get_urlmatch url "credential.msalTenantId";;
  Ok (msal_client_id, msal_tenant_id).

(** *** The token cache *)

Definition get_msal_cache_insecure (name : string) : M (option string) :=
  let msal_cache_name := "msal_cache_" +:+ name in
  let msal_cache_path := path_join (cache_dir env) msal_cache_name in
  read_file msal_cache_path.

Definition get_msal_cache (name : string) : M TC :=
  let cache := new_token_cache (msal env) in
  got <- keyring_get_password "system" name;;
  let data := match got with inl d => d | inr _ => None end in
  data <- (if negb (truthy data) then get_msal_cache_insecure name else ret data);;
  ret (match data with
       | Some d => if truthy data then deserialize (msal env) cache d else cache
       | None => cache
       end).

Definition put_msal_cache_insecure (name data : string) (allow_insecure : bool)
  : M unit :=
  if negb allow_insecure then ret tt
  else
    let msal_cache_name := "msal_cache_" +:+ name in
    let msal_cache_path := path_join (cache_dir env) msal_cache_name in
    write_file msal_cache_path data.

(** The cache object is returned because [serialize] clears its change
    flag. *)
Definition put_msal_cache (name : string) (cache : TC) (allow_insecure : bool)
  : M TC :=
  if has_state_changed (msal env) cache then
    let '(data, cache) := serialize (msal env) cache in
    stored <- keyring_set_password "system" name data;;
    (if stored then ret tt else put_msal_cache_insecure name data allow_insecure);;
    ret cache
  else ret cache.

(** *** The HTTP cache *)

Definition get_http_cache (name : string) : M HC :=
  let http_cache_name := "http_cache_" +:+ name in
  let http_cache_path := path_join (cache_dir env) http_cache_name in
  content <- read_file http_cache_path;;
  ret (match content with
       | Some bytes =>
           match pickle_loads env bytes with
           | Some http_cache => http_cache
           | None => empty_http_cache env
           end
       | None => empty_http_cache env
       end).

Definition put_http_cache (name : string) (http_cache : HC) : M unit :=
  let http_cache_name := "http_cache_" +:+ name in
  let http_cache_path := path_join (cache_dir env) http_cache_name in
  write_file http_cache_path (pickle_dumps env http_cache).

(** *** Expiry *)

(** [token] is [None] or a [str]; [jwt.decode] raises [DecodeError] on
    anything that is not text.  The claim is an integer here.  Adding it, as
    seconds, to the epoch raises [OverflowError] unless the sum is a
    [datetime], that is from the first second of year 1 to the last second
    of year 9999; the timestamp of the sum is then the claim again. *)
Definition jwt_expired_value (token : option string) : res Z :=
  match token with
  | None => Err DecodeError
  | Some t =>
      token_decoded <-! jwt_decode env t;;
      token_exp <-! getitem token_decoded "exp";;
      if ((-62135596800 <=? token_exp) && (token_exp <=? 253402300799))%Z
      then Ok token_exp
      else Err OverflowError
  end.

(** *** Acquisition *)

Definition cache_name (tenant_id client_id : string) : string :=
  tenant_id +:+ "_" +:+ client_id.

Definition keyring_name (tenant_id client_id : string) : string :=
  "git-credential-msal_" +:+ cache_name tenant_id client_id.

Definition success_template : string :=
  "<html><body><script>setTimeout(function(){window.close()}, 500);</script></body></html>".

(** [l[0]] *)
Definition head_item {A} (l : list A) : res A :=
  match l with x :: _ => Ok x | [] => Err IndexError end.

Definition msal_acquire_oidc_id_token (client_id tenant_id : string)
    (device_code allow_insecure : bool) : M (option string) :=
  let scopes := ["email openid User.Read"] in
  let cache_name := cache_name tenant_id client_id in
  let keyring_name := keyring_name tenant_id client_id in
  cache <- get_msal_cache keyring_name;;
  http_cache <- get_http_cache cache_name;;
  let app := mkApp client_id ("https://login.microsoftonline.com/" +:+ tenant_id) in
  let heap := (cache, http_cache) in
  let '(accounts, heap) := get_accounts (msal env) app heap in
  let '(acquire_tokens_result, heap) :=
    match accounts with
    | account :: _ => acquire_token_silent (msal env) app scopes account heap
    | [] => (None, heap)
    end in
  silent_or_flow <-
    match acquire_tokens_result with
    | Some r => ret (r, heap)
    | None =>
        if device_code then
          let '(device_code_flow, heap) :=
            initiate_device_flow (msal env) app scopes heap in
          message <- lift (getitem device_code_flow "message");;
          print_stderr message;;
          ret (acquire_token_by_device_flow (msal env) app device_code_flow heap)
        else
          ret (acquire_token_interactive (msal env) app scopes success_template heap)
    end;;
  let '(acquire_tokens_result, heap) := silent_or_flow in
  found <-
    (if has_key acquire_tokens_result "error" then
       error <- lift (getitem acquire_tokens_result "error");;
       print_stderr ("Error: " +:+ error);;
       description <- lift (getitem acquire_tokens_result "error_description");;
       print_stderr ("Description: " +:+ description);;
       ret (None, heap)
     else
       let '(accounts, heap) := get_accounts (msal env) app heap in
       account <- lift (head_item accounts);;
       home_account_id <- lift (getitem account "home_account_id");;
       entry <- lift (head_item
                        (cache_find_id_token (msal env) (fst heap) home_account_id));;
       secret <- lift (getitem entry "secret");;
       ret (Some secret, heap));;
  let '(id_token, (cache, http_cache)) := found in
  put_msal_cache keyring_name cache allow_insecure;;
  put_http_cache keyring_name http_cache;;
  ret id_token.

(** *** [main] *)

(** Lines 309 to 314 of [main]: the configuration lookup, then the
    challenge values when the lookup left either half unset. *)
Definition resolve_identity (helper_pairs : gmap string value)
  : res (option string * option string) :=
  ids <-! extract_entra_ids_from_git_config helper_pairs;;
  match ids with
  | (Some client_id, Some tenant_id) => Ok (Some client_id, Some tenant_id)
  | _ => extract_entra_ids_from_wwwauth helper_pairs
  end.

(** [f"{x}"] for an optional [str] *)
Definition format_opt (x : option string) : string :=
  match x with Some s => s | None => "None" end.

Definition is_none {A} (x : option A) : bool :=
  match x with Some _ => false | None => true end.

Definition main (args : Args) (stdin : list string) : M unit :=
  when (negb (String.eqb (command args) "get")) (exit 0);;
  helper_pairs <- lift (read_stdin_pairs stdin);;
  when (negb (authtype_accepted helper_pairs)) (exit 0);;
  when (negb (bearer_accepted helper_pairs)) (exit 0);;
  ids <- lift (resolve_identity helper_pairs);;
  let '(client_id, tenant_id) := ids in
  when (is_none client_id)
    (print_stderr "Missing Microsoft Entra client id needed by git-credential-msal");;
  when (is_none tenant_id)
    (print_stderr "Missing Microsoft Entra tenant id needed by git-credential-msal");;
  match client_id, tenant_id with
  | Some client_id, Some tenant_id =>
      set_inheritable_stdout false;;
      id_token <- msal_acquire_oidc_id_token client_id tenant_id
                    (device_code args) (insecure args);;
      expiry <- lift (jwt_expired_value id_token);;
      print "capability[]=authtype";;
      print "authtype=Bearer";;
      print ("credential=" +:+ format_opt id_token);;
      print ("password_expiry_utc=" +:+ pretty expiry)
  | _, _ => exit 0
  end.

End Helper.

(** The exit status the invoker sees: zero when [main] returns, the argument
    of [exit], and one when an exception escapes. *)
Definition exit_status {A} (o : outcome A) : Z :=
  match o with
  | Ret _ => 0
  | Exit code => code
  | Raise _ => 1
  end.

Definition nl : string := String "010"%char EmptyString.

(** The files of the two cache families for a name. *)
Definition msal_cache_path {TC HC} (env : Env TC HC) (name : string) : string :=
  path_join (cache_dir env) ("msal_cache_" +:+ name).
Definition http_cache_path {TC HC} (env : Env TC HC) (name : string) : string :=
  path_join (cache_dir env) ("http_cache_" +:+ name).

(** ** A scripted broker

    A stand-in for the collaborators, used to run the pipeline on concrete
    inputs.  A token cache is its serialised text with the change flag; the
    HTTP cache is a dictionary pickled as the list of its bindings, one
    [key=value] line each.  The broker knows one account once the cache text
    is not empty, and answers every interactive or device-code request with
    the scripted result, marking the cache as changed. *)

Module Scripted.

Record token_cache := mkCache { blob : string; changed : bool }.

Definition account (tc : token_cache) : list dict :=
  if String.eqb (blob tc) EmptyString then []
  else [{[ "home_account_id" := "home"; "username" := "user@example.com" ]}].

Definition scripted_msal (silent : option dict) (flow_result : dict)
  : Msal token_cache dict :=
  {| new_token_cache := mkCache EmptyString false;
     deserialize := fun _ data => mkCache data false;
     serialize := fun tc => (blob tc, mkCache (blob tc) false);
     has_state_changed := changed;
     cache_find_id_token := fun tc home =>
       if String.eqb home "home" then [{[ "secret" := blob tc ]}] else [];
     get_accounts := fun _ heap => (account (fst heap), heap);
     acquire_token_silent := fun _ _ _ heap => (silent, heap);
     initiate_device_flow := fun _ _ heap =>
       ({[ "message" := "To sign in, open the page and enter the code" ]}, heap);
     acquire_token_by_device_flow := fun _ _ heap =>
       (flow_result,
        (if has_key flow_result "error" then fst heap else mkCache "id-token" true,
         <[ "login" := "cached" ]> (snd heap)));
     acquire_token_interactive := fun _ _ _ heap =>
       (flow_result,
        (if has_key flow_result "error" then fst heap else mkCache "id-token" true,
         <[ "login" := "cached" ]> (snd heap))) |}.

(** A pickle for dictionaries that round-trips: the bindings in key order,
    each as [key=value] and a newline. *)
Definition dumps (d : dict) : string :=
  String.concat EmptyString
    (map (fun kv => fst kv +:+ "=" +:+ snd kv +:+ nl) (map_to_list d)).

Fixpoint lines (s : string) (fuel : nat) : option (list (string * string)) :=
  match fuel with
  | O => None
  | S fuel' =>
      match s with
      | EmptyString => Some []
      | _ =>
          match PyStr.partition "010"%char s with
          | Some (line, s') =>
              match PyStr.partition "="%char line, lines s' fuel' with
              | Some kv, Some l => Some (kv :: l)
              | _, _ => None
              end
          | None => None
          end
      end
  end.

Definition loads (s : string) : option dict :=
  list_to_map <$> lines s (S (String.length s)).

(** Decoding for output that is ASCII, where bytes and text coincide; this
    stand-in refuses everything else. *)
Fixpoint is_ascii (s : string) : bool :=
  match s with
  | EmptyString => true
  | String c s' => (nat_of_ascii c <? 128)%nat && is_ascii s'
  end.

Definition ascii_decode (b : string) : res string :=
  if is_ascii b then Ok b else Err UnicodeDecodeError.

Definition env (config : string -> string -> Z * string)
    (silent : option dict) (flow_result : dict) : Env token_cache dict :=
  {| cache_dir := "/home/u/.cache/git-credential-msal";
     git_config := config;
     bytes_decode := ascii_decode;
     msal := scripted_msal silent flow_result;
     empty_http_cache := ∅;
     pickle_dumps := dumps;
     pickle_loads := loads;
     jwt_decode := fun t =>
       if String.eqb t "id-token" then Ok {[ "exp" := 1700000000%Z ]}
       else Err DecodeError |}.

Definition no_config : string -> string -> Z * string :=
  fun _ _ => (1%Z, EmptyString).

Definition fresh_world : World :=
  mkWorld (Some ∅) ∅ [] [] true.

Definition challenge : string :=
  "wwwauth[]=Bearer authorization_uri=https://login.microsoftonline.com/T/oauth2/authorize msal-client-id="
  +:+ dquote +:+ "C" +:+ dquote +:+ " msal-tenant-id=" +:+ dquote +:+ "T" +:+ dquote.

Definition request : list string :=
  [ "protocol=https" +:+ nl; "host=dev.azure.com" +:+ nl;
    "capability[]=authtype" +:+ nl; challenge +:+ nl ].

Definition denied : dict :=
  {[ "error" := "access_denied"; "error_description" := "The user cancelled" ]}.

(** The configuration lookup of a user who set only the client id, and
    of one who set both. *)
Definition client_only_config : string -> string -> Z * string :=
  fun key _ =>
    if String.eqb key "credential.msalClientId" then (0%Z, "CFG-C" +:+ nl)
    else (1%Z, EmptyString).

Definition full_config : string -> string -> Z * string :=
  fun key _ =>
    if String.eqb key "credential.msalClientId" then (0%Z, "CFG-C" +:+ nl)
    else (0%Z, "CFG-T" +:+ nl).

Definition helper_pairs : gmap string value :=
  {[ "protocol" := VStr "https"; "host" := VStr "dev.azure.com";
     "capability" := VList ["authtype"];
     "wwwauth" := VList ["Bearer msal-client-id=C1, msal-tenant-id=T1"] ]}.

Definition quiet_env : Env token_cache dict := env no_config None ∅.

(** A world whose secure store works but holds nothing, next to an
    insecure token-cache file left for the name [n]. *)
Definition world_with_file : World :=
  mkWorld (Some ∅) {[ msal_cache_path quiet_env "n" := "saved" ]} [] [] true.

(** The run of [get] in which the user cancels the interactive flow. *)
Definition denied_run : outcome unit * World :=
  main (env no_config None denied) (mkArgs "get" false false) request fresh_world.

End Scripted.

(** ** Vocabulary of the statements *)

(** [c] does not occur in [s]. *)
Fixpoint no_char (c : ascii) (s : string) : bool :=
  match s with
  | EmptyString => true
  | String a s' => negb (Ascii.eqb a c) && no_char c s'
  end.

(** The value the loop of [extract_entra_ids_from_wwwauth] takes from one
    challenge for one pattern: the first group that took part in the match. *)
Definition param_value (matcher : re) (auth : string) : option string :=
  match re_match 3 matcher auth with
  | Some g => first_subgroup g None
  | None => None
  end.

(** What one challenge value contributes: both identifiers or nothing. *)
Definition challenge_ids (auth : string) : option (string * string) :=
  if bearer_match auth then
    match param_value wwwauth_client_id_matcher auth,
          param_value wwwauth_tenant_id_matcher auth with
    | Some c, Some t => Some (c, t)
    | _, _ => None
    end
  else None.



(** [s] has no line break; [v] can stand unquoted; [key] is assigned
    somewhere in [s]. *)
Definition one_line (s : string) : bool := no_char "010" s.
Definition assigned (key s : string) : bool := PyStr.contains (key +:+ "=") s.

(** What the secure store gives for a name: nothing when there is no
    backend, and nothing when the backend has no entry. *)
Definition secure_data (w : World) (name : string) : option string :=
  match keyring w with
  | Some k => k !! ("system", name)
  | None => None
  end.

(** The world with another secure store, or another cache directory. *)
Definition with_keyring (w : World) (k : option (gmap (string * string) string))
  : World :=
  mkWorld k (files w) (stdout w) (stderr w) (stdout_inheritable w).
Definition with_files (w : World) (f : gmap string string) : World :=
  mkWorld (keyring w) f (stdout w) (stderr w) (stdout_inheritable w).

(** The continuation [pattern.match] ends with: whatever is left of the
    subject, the match succeeds with the groups set so far. *)
Definition final : st -> option groups := fun σ => Some (caps σ).

(** What [os.path.join] puts in front of a relative name. *)
Definition dir_prefix (d : string) : string :=
  if String.eqb d EmptyString || PyStr.endswith "/" d then d else d +:+ "/".



(** A name that is a file name: no separator, no NUL, and short enough for
    the cache file named after it to be created in the cache directory. *)
Definition plain_name (name : string) : bool :=
  no_char "/" name && no_char "000" name && (String.length name <=? 100)%nat.

(** The cache pair as the broker calls of an acquisition leave it, the
    calls being those of [msal_acquire_oidc_id_token] in their order. *)
Definition heap_after_broker {TC HC} (env : Env TC HC)
    (client_id tenant_id : string) (device_code : bool) (heap : TC * HC)
  : TC * HC :=
  let scopes := ["email openid User.Read"] in
  let app := mkApp client_id ("https://login.microsoftonline.com/" +:+ tenant_id) in
  let '(accounts, heap) := get_accounts (msal env) app heap in
  let '(acquire_tokens_result, heap) :=
    match accounts with
    | account :: _ => acquire_token_silent (msal env) app scopes account heap
    | [] => (None, heap)
    end in
  let '(acquire_tokens_result, heap) :=
    match acquire_tokens_result with
    | Some r => (r, heap)
    | None =>
        if device_code then
          let '(device_code_flow, heap) :=
            initiate_device_flow (msal env) app scopes heap in
          acquire_token_by_device_flow (msal env) app device_code_flow heap
        else acquire_token_interactive (msal env) app scopes success_template heap
    end in
  if has_key acquire_tokens_result "error" then heap
  else snd (get_accounts (msal env) app heap).

(** A computation that keeps to the diagnostic stream: it prints nothing on
    standard output, leaves the inheritable flag alone, only appends to the
    diagnostic stream, and does not call [exit]. *)
Definition orderly {A} (c : M A) : Prop :=
  forall w,
    stdout (snd (c w)) = stdout w
    /\ stdout_inheritable (snd (c w)) = stdout_inheritable w
    /\ (exists lines, stderr (snd (c w)) = stderr w ++ lines)
    /\ (forall code, fst (c w) <> Exit code).

(** The four lines of a successful answer. *)
Definition credential_lines (id_token : string) (expiry : Z) : list string :=
  [ "capability[]=authtype"; "authtype=Bearer";
    "credential=" +:+ id_token; "password_expiry_utc=" +:+ pretty expiry ].

(** The two diagnostics of an unresolved identity. *)
Definition missing_identity_lines : list string :=
  [ "Missing Microsoft Entra client id needed by git-credential-msal";
    "Missing Microsoft Entra tenant id needed by git-credential-msal" ].

(** * Properties *)

(** ** Strings *)

Section StringFacts.

Local Arguments String.append : simpl nomatch.

Lemma app_nil_r (s : string) : s +:+ EmptyString = s.
Proof. induction s as [|c s IH]; simpl; [reflexivity | now rewrite IH]. Qed.

Lemma app_assoc (a b c : string) : (a +:+ b) +:+ c = a +:+ (b +:+ c).
Proof. induction a as [|x a IH]; simpl; [reflexivity | now rewrite IH]. Qed.

Lemma length_app (a b : string) :
  String.length (a +:+ b) = String.length a + String.length b.
Proof. induction a as [|x a IH]; simpl; [reflexivity | now rewrite IH]. Qed.

Lemma app_inv_head (p a b : string) : p +:+ a = p +:+ b -> a = b.
Proof.
  induction p as [|x p IH]; simpl; intros H; [exact H | ].
  injection H as H. now apply IH.
Qed.

Lemma strip_prefix_app (p s : string) : PyStr.strip_prefix p (p +:+ s) = Some s.
Proof.
  induction p as [|x p IH]; simpl; [reflexivity | ].
  now rewrite Ascii.eqb_refl.
Qed.

Lemma strip_prefix_Some (p s r : string) :
  PyStr.strip_prefix p s = Some r -> s = p +:+ r.
Proof.
  revert s; induction p as [|x p IH]; simpl; intros s H.
  - congruence.
  - destruct s as [|y s]; [discriminate | ].
    destruct (Ascii.eqb x y) eqn:E; [ | discriminate].
    apply Ascii.eqb_eq in E. subst y. now rewrite (IH _ H).
Qed.

Lemma startswith_app (p s : string) : PyStr.startswith p (p +:+ s) = true.
Proof. unfold PyStr.startswith. now rewrite strip_prefix_app. Qed.

Lemma startswith_true (p s : string) :
  PyStr.startswith p s = true <-> exists r, s = p +:+ r.
Proof.
  unfold PyStr.startswith. split.
  - destruct (PyStr.strip_prefix p s) eqn:E; [ | discriminate].
    intros _. exists s0. now apply strip_prefix_Some.
  - intros [r ->]. now rewrite strip_prefix_app.
Qed.

Lemma contains_startswith (needle hay : string) :
  PyStr.startswith needle hay = true -> PyStr.contains needle hay = true.
Proof. intros H. destruct hay; simpl; now rewrite H. Qed.

(** Python's [in] on two texts is substring containment. *)
Lemma contains_true (needle hay : string) :
  PyStr.contains needle hay = true
  <-> exists pre post, hay = pre +:+ needle +:+ post.
Proof.
  split.
  - induction hay as [|c hay IH]; simpl; intros H.
    + rewrite orb_false_r in H. apply startswith_true in H as [r Hr].
      now exists EmptyString, r.
    + apply orb_true_iff in H as [H | H].
      * apply startswith_true in H as [r Hr]. now exists EmptyString, r.
      * destruct (IH H) as (pre & post & ->). now exists (String c pre), post.
  - intros (pre & post & ->).
    induction pre as [|c pre IH]; simpl.
    + apply contains_startswith, startswith_app.
    + rewrite IH. apply orb_true_r.
Qed.

Lemma contains_false_drop (needle hay : string) (j : nat) :
  PyStr.contains needle hay = false ->
  PyStr.startswith needle (PyStr.drop j hay) = false.
Proof.
  revert j; induction hay as [|c hay IH]; intros j H.
  - destruct j; simpl in *; now apply orb_false_iff in H as [H _].
  - simpl in H. apply orb_false_iff in H as [H1 H2].
    destruct j; simpl; [exact H1 | now apply IH].
Qed.

Lemma take_app_length (v s : string) : PyStr.take (String.length v) (v +:+ s) = v.
Proof. induction v as [|c v IH]; simpl; [now destruct s | now rewrite IH]. Qed.

Lemma drop_app_length (v s : string) : PyStr.drop (String.length v) (v +:+ s) = s.
Proof. induction v as [|c v IH]; simpl; [now destruct s | exact IH]. Qed.

Lemma no_char_app (c : ascii) (a b : string) :
  no_char c (a +:+ b) = no_char c a && no_char c b.
Proof.
  induction a as [|x a IH]; simpl; [reflexivity | ].
  now rewrite IH, andb_assoc.
Qed.

(** A character that is not white space is never stripped, nor is anything
    before it. *)
Lemma rstrip_with_cons (sp : ascii -> bool) (c : ascii) (s : string) :
  sp c = false ->
  PyStr.rstrip_with sp (String c s) = String c (PyStr.rstrip_with sp s).
Proof. intros H. simpl. rewrite H. now destruct (PyStr.rstrip_with sp s). Qed.

End StringFacts.

(** ** The matcher *)

Section RegexFacts.

Local Arguments String.append : simpl nomatch.

Implicit Types (k : st -> option groups) (g : groups) (p : nat) (s v : string).


Lemma star_greedy_is_Some c g p s k :
  (forall σ, is_Some (k σ)) -> is_Some (star_greedy c g p s k).
Proof.
  intros Hk. revert p; induction s as [|a s IH]; intros p; simpl; [apply Hk | ].
  destruct (cls_match c a); [ | apply Hk].
  destruct (star_greedy c g (S p) s k); [eauto | apply Hk].
Qed.


Lemma star_greedy_None c g p s k :
  (forall j, k (St (p + j) (PyStr.drop j s) g) = None) ->
  star_greedy c g p s k = None.
Proof.
  revert p; induction s as [|a s IH]; intros p Hk; simpl.
  - specialize (Hk 0). now rewrite Nat.add_0_r in Hk.
  - assert (H0 : k (St p (String a s) g) = None).
    { specialize (Hk 0). now rewrite Nat.add_0_r in Hk. }
    destruct (cls_match c a); [ | exact H0].
    rewrite IH; [exact H0 | ].
    intros j. specialize (Hk (S j)). now rewrite Nat.add_succ_r in Hk.
Qed.





Lemma bearer_match_startswith (auth : string) :
  bearer_match auth = PyStr.startswith "Bearer" auth.
Proof.
  unfold bearer_match, re_match, wwwauth_bearer_matcher, PyStr.startswith.
  cbn [run pos rest caps Nat.eqb].
  destruct (PyStr.strip_prefix "Bearer" auth) as [s|];
    [ | now apply bool_decide_eq_false_2, is_Some_None].
  apply bool_decide_eq_true_2.
  destruct (star_greedy_is_Some Space (replicate 0 None)
              (0 + String.length "Bearer") s (fun σ => Some (caps σ)))
    as [x Hx]; [eauto | ].
  rewrite Hx. eauto.
Qed.

Lemma strip_prefix_bind (a b x : string) :
  PyStr.strip_prefix (a +:+ b) x =
  match PyStr.strip_prefix a x with
  | Some y => PyStr.strip_prefix b y
  | None => None
  end.
Proof.
  revert x; induction a as [|c a IH]; intros x; simpl; [reflexivity | ].
  destruct x as [|d x]; [reflexivity | ].
  destruct (Ascii.eqb c d); [apply IH | reflexivity].
Qed.

(** Where the text does not go on with the key and an equals sign, the
    rest of a parameter pattern fails. *)
Lemma after_key_None (key x : string) q g :
  PyStr.startswith (key +:+ "=") x = false ->
  run (Lit key) (St q x g) (fun σ' => run param_alternatives σ' final) = None.
Proof.
  unfold PyStr.startswith. rewrite strip_prefix_bind.
  cbn [run pos rest caps].
  destruct (PyStr.strip_prefix key x) as [y|]; [ | reflexivity].
  intros Hy. unfold param_alternatives, dquote. cbn [run pos rest caps].
  destruct y as [|b y]; [reflexivity | ].
  cbn [PyStr.strip_prefix String.append] in Hy |- *.
  destruct (Ascii.eqb "=" b); [discriminate | reflexivity].
Qed.



Lemma param_matcher_None (key auth : string) :
  PyStr.contains (key +:+ "=") auth = false ->
  re_match 3 (wwwauth_param_matcher key) auth = None.
Proof.
  intros H. unfold re_match, wwwauth_param_matcher. cbn [run pos rest caps].
  apply star_greedy_None. intros j. apply after_key_None.
  now apply contains_false_drop.
Qed.



Lemma strip_prefix_cons (c : ascii) (l s : string) :
  PyStr.strip_prefix (String c l) (String c s) = PyStr.strip_prefix l s.
Proof. simpl. now rewrite Ascii.eqb_refl. Qed.

Lemma strip_prefix_nil (s : string) : PyStr.strip_prefix EmptyString s = Some s.
Proof. reflexivity. Qed.

Lemma strip_prefix_head_ne (c d : ascii) (l s : string) :
  Ascii.eqb c d = false -> PyStr.strip_prefix (String c l) (String d s) = None.
Proof. intros H. simpl. now rewrite H. Qed.













Lemma param_value_absent (key auth : string) :
  PyStr.contains (key +:+ "=") auth = false ->
  param_value (wwwauth_param_matcher key) auth = None.
Proof. intros H. unfold param_value. now rewrite param_matcher_None. Qed.

End RegexFacts.

(** ** The loop over the challenge values *)

Lemma wwwauth_loop_step (auth : string) (rest : list string) :
  wwwauth_loop (auth :: rest) None None =
  match challenge_ids auth with
  | Some (c, t) => (Some c, Some t)
  | None => wwwauth_loop rest None None
  end.
Proof.
  unfold challenge_ids, param_value. cbn [wwwauth_loop].
  destruct (bearer_match auth); [ | reflexivity].
  destruct (re_match 3 wwwauth_client_id_matcher auth) as [cg|]; [ | reflexivity].
  destruct (re_match 3 wwwauth_tenant_id_matcher auth) as [tg|].
  - destruct (first_subgroup cg None), (first_subgroup tg None); reflexivity.
  - now destruct (first_subgroup cg None).
Qed.



(** ** The challenge grammar *)







(** ** The parser *)

(** C3: an empty value for a multi-valued key resets the list and is then
    appended to it like any other value, so the key holds the empty text, not
    an empty list; on the three lines of the example [capability] ends as the
    two values, the empty text and [b]. *)
Theorem empty_value_entry_is_kept :
  (forall kvs : gmap string value,
      read_stdin_pair kvs ("capability[]=" +:+ nl)
      = Ok (<["capability" := VList [EmptyString]]> kvs))
  /\ read_stdin_pairs
       ["capability[]=a" +:+ nl; "capability[]=" +:+ nl; "capability[]=b" +:+ nl]
     = Ok {[ "capability" := VList [EmptyString; "b"] ]}.
Proof.
  split; [ | vm_compute; reflexivity].
  intros kvs. unfold read_stdin_pair.
  change (PyStr.split1 "=" (PyStr.rstrip ("capability[]=" +:+ nl)))
    with ["capability[]"; EmptyString].
  change (PyStr.endswith "[]" "capability[]") with true.
  change (PyStr.drop_last 2 "capability[]") with "capability".
  change (String.eqb EmptyString EmptyString) with true.
  cbv beta iota zeta. rewrite orb_true_r, lookup_insert_eq.
  now rewrite insert_insert_eq.
Qed.

(** A scalar line keeps its key and sets the value with the trailing white
    space removed. *)
Lemma read_scalar_capability (kvs : gmap string value) (X : string) :
  read_stdin_pair kvs ("capability=" +:+ X)
  = Ok (<["capability" := VStr (PyStr.rstrip X)]> kvs).
Proof.
  unfold read_stdin_pair, PyStr.rstrip.
  change ("capability=" +:+ X) with
    (String "c" (String "a" (String "p" (String "a" (String "b" (String "i"
      (String "l" (String "i" (String "t" (String "y" (String "=" X))))))))))).
  rewrite !rstrip_with_cons by reflexivity.
  reflexivity.
Qed.

(** C10: a scalar line [capability=X] stores [X] as text, and the gate
    searches such a value as text: it opens for any value that has
    [authtype] somewhere inside it. *)
Theorem scalar_capability_is_searched_as_text :
  (forall (kvs : gmap string value) (X : string),
      read_stdin_pair kvs ("capability=" +:+ X)
      = Ok (<["capability" := VStr (PyStr.rstrip X)]> kvs))
  /\ (forall (helper_pairs : gmap string value) (X : string),
      helper_pairs !! "capability" = Some (VStr X) ->
      (authtype_accepted helper_pairs = true
       <-> exists pre post, X = pre +:+ "authtype" +:+ post)).
Proof.
  split; [apply read_scalar_capability | ].
  intros hp X H. unfold authtype_accepted, has_key. rewrite H.
  rewrite bool_decide_eq_true_2 by eauto. cbn [negb py_in].
  apply contains_true.
Qed.

Lemma scalar_capability_is_searched_as_text_witness :
  (authtype_accepted (<["capability" := VStr "xauthtypey"]> ∅) = true
   <-> exists pre post, "xauthtypey" = pre +:+ "authtype" +:+ post)
  /\ res_bind (read_stdin_pairs ["capability=xauthtypey" +:+ nl])
              (fun kvs => Ok (authtype_accepted kvs)) = Ok true.
Proof.
  split.
  - apply (proj2 scalar_capability_is_searched_as_text
             (<["capability" := VStr "xauthtypey"]> ∅) "xauthtypey").
    vm_compute. reflexivity.
  - vm_compute. reflexivity.
Defined.

(** ** The capability gate *)

(** C8: the gate opens exactly when some challenge value starts with
    [Bearer], whatever follows; a value such as [Bearerx], whose leading
    token is not [Bearer], is accepted. *)
Theorem bearer_accepted_is_a_prefix_test :
  (forall helper_pairs : gmap string value,
      bearer_accepted helper_pairs = true
      <-> exists v auth,
            helper_pairs !! "wwwauth" = Some v
            /\ auth ∈ py_iter v
            /\ PyStr.startswith "Bearer" auth = true)
  /\ res_bind (read_stdin_pairs ["wwwauth[]=Bearerx" +:+ nl])
              (fun kvs => Ok (bearer_accepted kvs)) = Ok true.
Proof.
  split; [ | vm_compute; reflexivity].
  intros hp. unfold bearer_accepted, has_key.
  destruct (hp !! "wwwauth") as [v|].
  - rewrite bool_decide_eq_true_2 by eauto. cbn [negb].
    rewrite existsb_exists. split.
    + intros (auth & Hin & Hm). exists v, auth.
      rewrite bearer_match_startswith in Hm.
      split; [reflexivity | ]. split; [now apply list_elem_of_In | exact Hm].
    + intros (v' & auth & Hv & Hin & Hm). inversion Hv; subst v'.
      exists auth. rewrite bearer_match_startswith.
      split; [now apply list_elem_of_In | exact Hm].
  - rewrite bool_decide_eq_false_2 by (intros [? ?]; discriminate). cbn [negb].
    split; [discriminate | ]. intros (v & auth & Hv & _). discriminate.
Qed.

(** ** Cache names *)

Section CacheNames.

Local Arguments String.append : simpl nomatch.

Lemma cache_name_inj (t1 c1 t2 c2 : string) :
  no_char "_" t1 = true -> no_char "_" t2 = true ->
  cache_name t1 c1 = cache_name t2 c2 -> t1 = t2 /\ c1 = c2.
Proof.
  unfold cache_name. revert t2.
  induction t1 as [|a t1 IH]; intros [|b t2] H1 H2 E;
    cbn [String.append no_char] in *.
  - injection E as E. now split.
  - injection E as Eb E. subst b. discriminate.
  - injection E as Ea E. subst a. discriminate.
  - injection E as Eab E. subst b.
    apply andb_true_iff in H1 as [_ H1]. apply andb_true_iff in H2 as [_ H2].
    destruct (IH t2 H1 H2 E) as [-> ->]. now split.
Qed.

Lemma path_join_relative (d b : string) :
  PyStr.startswith "/" b = false -> path_join d b = dir_prefix d +:+ b.
Proof.
  intros H. unfold path_join, dir_prefix. rewrite H.
  destruct (String.eqb d EmptyString || PyStr.endswith "/" d);
    [reflexivity | now rewrite app_assoc].
Qed.

Lemma msal_cache_path_eq {TC HC} (env : Env TC HC) (name : string) :
  msal_cache_path env name = (dir_prefix (cache_dir env) +:+ "msal_cache_") +:+ name.
Proof.
  unfold msal_cache_path. rewrite path_join_relative by reflexivity.
  now rewrite app_assoc.
Qed.

Lemma http_cache_path_eq {TC HC} (env : Env TC HC) (name : string) :
  http_cache_path env name = (dir_prefix (cache_dir env) +:+ "http_cache_") +:+ name.
Proof.
  unfold http_cache_path. rewrite path_join_relative by reflexivity.
  now rewrite app_assoc.
Qed.

Lemma keyring_name_longer (t c : string) :
  String.length (keyring_name t c) = 20 + String.length (cache_name t c).
Proof. unfold keyring_name. now rewrite length_app. Qed.

(** The file [put_http_cache] is given is never the one [get_http_cache]
    is given. *)
Lemma http_cache_paths_differ {TC HC} (env : Env TC HC) (t c : string) :
  http_cache_path env (keyring_name t c) <> http_cache_path env (cache_name t c).
Proof.
  rewrite !http_cache_path_eq. intros E. apply app_inv_head in E.
  apply (f_equal String.length) in E. rewrite keyring_name_longer in E. lia.
Qed.

End CacheNames.

(** C4, as stated, fails: the underscore that separates the two halves may
    also occur inside them. *)
Lemma cache_name_collision :
  ("a_b", "c") <> ("a", "b_c")
  /\ cache_name "a_b" "c" = cache_name "a" "b_c"
  /\ keyring_name "a_b" "c" = keyring_name "a" "b_c".
Proof. repeat split. discriminate. Qed.

(** C4, amended: identities whose tenant ids have no underscore get
    different names, in the secure store and in both file families. *)
Theorem cache_names_distinct :
  forall {TC HC} (env : Env TC HC) (t1 c1 t2 c2 : string),
    no_char "_" t1 = true -> no_char "_" t2 = true ->
    (t1, c1) <> (t2, c2) ->
    cache_name t1 c1 <> cache_name t2 c2
    /\ keyring_name t1 c1 <> keyring_name t2 c2
    /\ msal_cache_path env (keyring_name t1 c1) <> msal_cache_path env (keyring_name t2 c2)
    /\ http_cache_path env (cache_name t1 c1) <> http_cache_path env (cache_name t2 c2)
    /\ http_cache_path env (keyring_name t1 c1) <> http_cache_path env (keyring_name t2 c2).
Proof.
  intros TC HC env t1 c1 t2 c2 H1 H2 Hne.
  assert (Hc : cache_name t1 c1 <> cache_name t2 c2).
  { intros E. destruct (cache_name_inj _ _ _ _ H1 H2 E) as [-> ->]. now apply Hne. }
  assert (Hk : keyring_name t1 c1 <> keyring_name t2 c2).
  { unfold keyring_name. intros E. now apply app_inv_head in E. }
  rewrite !msal_cache_path_eq, !http_cache_path_eq.
  repeat split; try assumption; intros E; apply app_inv_head in E; contradiction.
Qed.

Lemma cache_names_distinct_witness :
  cache_name "tenant-1" "client_a" <> cache_name "tenant-2" "client_a"
  /\ keyring_name "tenant-1" "client_a" <> keyring_name "tenant-2" "client_a".
Proof.
  destruct (cache_names_distinct
              (Scripted.env Scripted.no_config None ∅)
              "tenant-1" "client_a" "tenant-2" "client_a") as (H1 & H2 & _);
    [reflexivity | reflexivity | discriminate | ].
  now split.
Defined.

(** ** The token cache *)

(** C5, as stated, fails: the secure store works and merely has no entry for
    the name, and the read still takes the insecure file. *)
Lemma token_cache_read_falls_back_on_missing_entry :
  keyring Scripted.world_with_file = Some ∅
  /\ fst (get_msal_cache Scripted.quiet_env "n" Scripted.world_with_file)
     = Ret (Scripted.mkCache "saved" false)
  /\ Scripted.mkCache "saved" false <> new_token_cache (msal Scripted.quiet_env).
Proof. repeat split. discriminate. Qed.

(** C5, amended: the read takes the secure store's text when that text is
    not empty, and otherwise (no backend, no entry, or an empty entry) the
    insecure file's; when neither gives a text that is not empty the result
    is a new, empty cache.  The read never raises and changes nothing. *)
Theorem token_cache_read_fallback :
  forall {TC HC} (env : Env TC HC) (name : string) (w : World),
    let new := new_token_cache (msal env) in
    let file := files w !! msal_cache_path env name in
    (forall d, secure_data w name = Some d -> d <> EmptyString ->
               get_msal_cache env name w = (Ret (deserialize (msal env) new d), w))
    /\ (forall d, truthy (secure_data w name) = false ->
                  file = Some d -> d <> EmptyString ->
                  get_msal_cache env name w = (Ret (deserialize (msal env) new d), w))
    /\ (truthy (secure_data w name) = false -> truthy file = false ->
        get_msal_cache env name w = (Ret new, w))
    /\ (truthy (secure_data w name) = false
        <-> keyring w = None
            \/ exists k, keyring w = Some k
                         /\ (k !! ("system", name) = None
                             \/ k !! ("system", name) = Some EmptyString)).
Proof.
  intros TC HC env name w new file.
  assert (Hne : forall d, d <> EmptyString -> String.eqb d EmptyString = false)
    by (intros d; apply String.eqb_neq).
  unfold get_msal_cache, get_msal_cache_insecure, keyring_get_password, read_file,
    bind, ret, secure_data.
  fold (msal_cache_path env name). fold file.
  refine (conj _ (conj _ (conj _ _))).
  - intros d Hd Hnz. destruct (keyring w) as [k|]; [ | discriminate].
    rewrite Hd. cbn [truthy negb]. rewrite (Hne d Hnz). cbn [truthy negb].
    now rewrite (Hne d Hnz).
  - intros d Hs Hf Hnz. destruct (keyring w) as [k|].
    + rewrite Hs. cbn [negb]. unfold file in Hf. rewrite Hf. cbn [truthy].
      now rewrite (Hne d Hnz).
    + cbn [truthy negb]. unfold file in Hf. rewrite Hf. cbn [truthy].
      now rewrite (Hne d Hnz).
  - intros Hs Hf. destruct (keyring w) as [k|].
    + rewrite Hs. cbn [negb]. unfold file in Hf.
      destruct (files w !! msal_cache_path env name) as [d|]; [ | reflexivity].
      now rewrite Hf.
    + cbn [truthy negb]. unfold file in Hf.
      destruct (files w !! msal_cache_path env name) as [d|]; [ | reflexivity].
      now rewrite Hf.
  - destruct (keyring w) as [k|]; cbn [truthy].
    + destruct (k !! ("system", name)) as [d|] eqn:E; cbn [truthy].
      * rewrite negb_false_iff, String.eqb_eq. split.
        -- intros ->. right. exists k. split; [reflexivity | now right].
        -- intros [? | (k' & Hk & Hd)]; [discriminate | ].
           inversion Hk; subst k'. rewrite E in Hd.
           destruct Hd as [Hd | Hd]; [discriminate | now inversion Hd].
      * split; [ | reflexivity]. intros _. right. exists k.
        split; [reflexivity | now left].
    + split; [now left | reflexivity].
Qed.

Lemma token_cache_read_fallback_witness :
  get_msal_cache Scripted.quiet_env "n"
    (with_keyring Scripted.world_with_file (Some {[ ("system", "n") := "kept" ]}))
  = (Ret (Scripted.mkCache "kept" false),
     with_keyring Scripted.world_with_file (Some {[ ("system", "n") := "kept" ]}))
  /\ get_msal_cache Scripted.quiet_env "n" (with_keyring Scripted.world_with_file None)
     = (Ret (Scripted.mkCache "saved" false),
        with_keyring Scripted.world_with_file None)
  /\ get_msal_cache Scripted.quiet_env "n" Scripted.fresh_world
     = (Ret (Scripted.mkCache EmptyString false), Scripted.fresh_world).
Proof.
  refine (conj _ (conj _ _)).
  - apply (proj1 (token_cache_read_fallback Scripted.quiet_env "n" _) "kept");
      [reflexivity | discriminate].
  - apply (proj1 (proj2 (token_cache_read_fallback Scripted.quiet_env "n" _)) "saved");
      [reflexivity | reflexivity | discriminate].
  - apply (proj1 (proj2 (proj2
             (token_cache_read_fallback Scripted.quiet_env "n" Scripted.fresh_world))));
      reflexivity.
Defined.

(** C9: the write does nothing when the cache reports no change; otherwise
    it serialises the cache and stores the text in the secure store when
    there is one, in the insecure file when there is none and the caller
    allowed it, and nowhere when there is none and the caller did not. *)
Theorem token_cache_write_policy :
  forall {TC HC} (env : Env TC HC) (name : string) (cache : TC)
         (allow_insecure : bool) (w : World),
    (has_state_changed (msal env) cache = false ->
     put_msal_cache env name cache allow_insecure w = (Ret cache, w))
    /\ (forall data cache',
           has_state_changed (msal env) cache = true ->
           serialize (msal env) cache = (data, cache') ->
           (forall k, keyring w = Some k ->
                      put_msal_cache env name cache allow_insecure w
                      = (Ret cache',
                         with_keyring w (Some (<[("system", name) := data]> k))))
           /\ (keyring w = None -> allow_insecure = true ->
               put_msal_cache env name cache allow_insecure w
               = (Ret cache',
                  with_files w (<[msal_cache_path env name := data]> (files w))))
           /\ (keyring w = None -> allow_insecure = false ->
               put_msal_cache env name cache allow_insecure w = (Ret cache', w))).
Proof.
  intros TC HC env name cache allow w. split.
  - intros H. unfold put_msal_cache. now rewrite H.
  - intros data cache' Hch Hser.
    unfold put_msal_cache, put_msal_cache_insecure, keyring_set_password, write_file,
      bind, ret.
    rewrite Hch, Hser. refine (conj _ (conj _ _)).
    + intros k Hk. now rewrite Hk.
    + intros Hk ->. now rewrite Hk.
    + intros Hk ->. now rewrite Hk.
Qed.

Lemma token_cache_write_policy_witness :
  put_msal_cache Scripted.quiet_env "n" (Scripted.mkCache "t" false) true
    Scripted.fresh_world
  = (Ret (Scripted.mkCache "t" false), Scripted.fresh_world)
  /\ put_msal_cache Scripted.quiet_env "n" (Scripted.mkCache "t" true) true
       Scripted.fresh_world
     = (Ret (Scripted.mkCache "t" false),
        with_keyring Scripted.fresh_world (Some (<[("system", "n") := "t"]> ∅)))
  /\ put_msal_cache Scripted.quiet_env "n" (Scripted.mkCache "t" true) true
       (with_keyring Scripted.fresh_world None)
     = (Ret (Scripted.mkCache "t" false),
        with_files (with_keyring Scripted.fresh_world None)
          (<[msal_cache_path Scripted.quiet_env "n" := "t"]> ∅))
  /\ put_msal_cache Scripted.quiet_env "n" (Scripted.mkCache "t" true) false
       (with_keyring Scripted.fresh_world None)
     = (Ret (Scripted.mkCache "t" false), with_keyring Scripted.fresh_world None).
Proof.
  refine (conj _ (conj _ (conj _ _))).
  - apply (proj1 (token_cache_write_policy Scripted.quiet_env "n"
                    (Scripted.mkCache "t" false) true Scripted.fresh_world)).
    reflexivity.
  - apply (proj1 (proj2 (token_cache_write_policy Scripted.quiet_env "n"
                    (Scripted.mkCache "t" true) true Scripted.fresh_world)
                  "t" (Scripted.mkCache "t" false) eq_refl eq_refl)).
    reflexivity.
  - apply (proj1 (proj2 (proj2 (token_cache_write_policy Scripted.quiet_env "n"
                    (Scripted.mkCache "t" true) true
                    (with_keyring Scripted.fresh_world None))
                  "t" (Scripted.mkCache "t" false) eq_refl eq_refl)));
      reflexivity.
  - apply (proj2 (proj2 (proj2 (token_cache_write_policy Scripted.quiet_env "n"
                    (Scripted.mkCache "t" true) false
                    (with_keyring Scripted.fresh_world None))
                  "t" (Scripted.mkCache "t" false) eq_refl eq_refl)));
      reflexivity.
Defined.

(** ** Identity resolution *)

(** C6: when the configuration lookup gives both identifiers, they are the
    result; when it leaves either unset, the result is whatever the challenge
    values give, and nothing of the lookup is kept. *)
Theorem identity_resolved_as_a_unit :
  forall {TC HC} (env : Env TC HC) (helper_pairs : gmap string value),
    (forall c t,
        extract_entra_ids_from_git_config env helper_pairs = Ok (Some c, Some t) ->
        resolve_identity env helper_pairs = Ok (Some c, Some t))
    /\ (forall c t,
        extract_entra_ids_from_git_config env helper_pairs = Ok (c, t) ->
        c = None \/ t = None ->
        resolve_identity env helper_pairs
        = extract_entra_ids_from_wwwauth helper_pairs).
Proof.
  intros TC HC env hp. unfold resolve_identity. split.
  - intros c t H. now rewrite H.
  - intros c t H Hnone. rewrite H. cbn [res_bind].
    destruct Hnone as [-> | ->]; [reflexivity | now destruct c].
Qed.

Lemma identity_resolved_as_a_unit_witness :
  resolve_identity (Scripted.env Scripted.full_config None ∅) Scripted.helper_pairs
  = Ok (Some "CFG-C", Some "CFG-T")
  /\ resolve_identity (Scripted.env Scripted.client_only_config None ∅)
       Scripted.helper_pairs
     = extract_entra_ids_from_wwwauth Scripted.helper_pairs
  /\ extract_entra_ids_from_wwwauth Scripted.helper_pairs = Ok (Some "C1", Some "T1").
Proof.
  refine (conj _ (conj _ _)).
  - apply (proj1 (identity_resolved_as_a_unit
                    (Scripted.env Scripted.full_config None ∅) Scripted.helper_pairs)).
    vm_compute. reflexivity.
  - apply (proj2 (identity_resolved_as_a_unit
                    (Scripted.env Scripted.client_only_config None ∅)
                    Scripted.helper_pairs) (Some "CFG-C") None).
    + vm_compute. reflexivity.
    + now right.
  - vm_compute. reflexivity.
Defined.

(** ** The HTTP cache *)

(** C2: the acquisition reads the HTTP cache under the cache name and writes
    it under the keyring name, which is longer, so what it wrote is never
    what it reads: after the write the read gives what it gave before, and in
    a fresh directory it gives the empty cache whatever was written. *)
Theorem http_cache_written_under_another_name :
  (forall {TC HC} (env : Env TC HC) (tenant_id client_id : string)
          (http_cache : HC) (w : World),
      fst (get_http_cache env (cache_name tenant_id client_id)
             (snd (put_http_cache env (keyring_name tenant_id client_id)
                     http_cache w)))
      = fst (get_http_cache env (cache_name tenant_id client_id) w))
  /\ fst (get_http_cache Scripted.quiet_env (cache_name "T" "C")
            (snd (put_http_cache Scripted.quiet_env (keyring_name "T" "C")
                    {[ "login" := "cached" ]} Scripted.fresh_world)))
     = Ret ∅
  /\ fst (get_http_cache Scripted.quiet_env (keyring_name "T" "C")
            (snd (put_http_cache Scripted.quiet_env (keyring_name "T" "C")
                    {[ "login" := "cached" ]} Scripted.fresh_world)))
     = Ret {[ "login" := "cached" ]}.
Proof.
  refine (conj _ (conj _ _)); [ | vm_compute; reflexivity ..].
  intros TC HC env t c hc w.
  unfold get_http_cache, put_http_cache, read_file, write_file, bind, ret.
  cbn [fst snd files].
  fold (http_cache_path env (keyring_name t c)).
  fold (http_cache_path env (cache_name t c)).
  rewrite lookup_insert_ne by apply http_cache_paths_differ.
  reflexivity.
Qed.

(** ** The pipeline *)

(** Once the acquisition has returned without a token, [main] goes on to
    decode it, and the decoder's exception escapes. *)
Lemma main_without_token_raises {TC HC} (env : Env TC HC) (args : Args)
    (stdin : list string) (helper_pairs : gmap string value)
    (client_id tenant_id : string) (w w' : World) :
  command args = "get" ->
  read_stdin_pairs stdin = Ok helper_pairs ->
  authtype_accepted helper_pairs = true ->
  bearer_accepted helper_pairs = true ->
  resolve_identity env helper_pairs = Ok (Some client_id, Some tenant_id) ->
  msal_acquire_oidc_id_token env client_id tenant_id (device_code args) (insecure args)
    (mkWorld (keyring w) (files w) (stdout w) (stderr w) false)
  = (Ret None, w') ->
  main env args stdin w = (Raise DecodeError, w').
Proof.
  intros Hc Hr Ha Hb Hi Hacq. unfold main, bind, when, lift, ret.
  rewrite Hc, Hr. cbn [String.eqb Ascii.eqb Bool.eqb negb].
  rewrite Ha, Hb, Hi. cbn [negb is_none].
  unfold set_inheritable_stdout. rewrite Hacq. reflexivity.
Qed.

(** C1: in the run where the user cancels the interactive flow the two
    diagnostic lines are written and nothing is printed, but the run ends
    with the decoder's exception, so with exit status one. *)
Theorem broker_error_aborts_main :
  fst Scripted.denied_run = Raise DecodeError
  /\ exit_status (fst Scripted.denied_run) = 1%Z
  /\ stdout (snd Scripted.denied_run) = []
  /\ stderr (snd Scripted.denied_run)
     = ["Error: access_denied"; "Description: The user cancelled"].
Proof. vm_compute. repeat split. Qed.

(** * Further properties *)

(** ** Lines of the credential protocol *)

Section LineFacts.

Local Arguments String.append : simpl nomatch.

(** Stripping stops at a character that is not white space. *)
Lemma rstrip_with_app (sp : ascii -> bool) (a b : string) (c : ascii) :
  sp c = false ->
  PyStr.rstrip_with sp (a +:+ String c b) = a +:+ String c (PyStr.rstrip_with sp b).
Proof.
  intros Hc. induction a as [|x a IH]; cbn [String.append].
  - now apply rstrip_with_cons.
  - cbn [PyStr.rstrip_with]. rewrite IH. now destruct a.
Qed.

Lemma rstrip_with_idempotent (sp : ascii -> bool) (s : string) :
  PyStr.rstrip_with sp (PyStr.rstrip_with sp s) = PyStr.rstrip_with sp s.
Proof.
  induction s as [|c s IH]; [reflexivity | ].
  cbn [PyStr.rstrip_with].
  destruct (PyStr.rstrip_with sp s) as [|d r] eqn:E.
  - destruct (sp c) eqn:Hc; [reflexivity | ].
    cbn [PyStr.rstrip_with]. now rewrite Hc.
  - cbn [PyStr.rstrip_with] in IH |- *.
    destruct (PyStr.rstrip_with sp r) as [|e r'] eqn:E'.
    + destruct (sp d); [discriminate | ]. now rewrite IH.
    + now rewrite IH.
Qed.

Lemma partition_first (sep : ascii) (k x : string) :
  no_char sep k = true ->
  PyStr.partition sep (k +:+ String sep x) = Some (k, x).
Proof.
  induction k as [|c k IH]; cbn [String.append PyStr.partition no_char]; intros H.
  - now rewrite Ascii.eqb_refl.
  - apply andb_true_iff in H as [Hc Hk]. apply negb_true_iff in Hc.
    now rewrite Hc, (IH Hk).
Qed.


(** A line with an equals sign splits at the first one, and the value loses
    its trailing white space. *)
Lemma split_line (key v : string) :
  no_char "=" key = true ->
  PyStr.split1 "=" (PyStr.rstrip (key +:+ "=" +:+ v)) = [key; PyStr.rstrip v].
Proof.
  intros Hk. unfold PyStr.rstrip, PyStr.split1.
  change ("=" +:+ v) with (String "=" v).
  rewrite rstrip_with_app by reflexivity.
  now rewrite partition_first.
Qed.

Lemma endswith_brackets (k : string) : PyStr.endswith "[]" (k +:+ "[]") = true.
Proof.
  unfold PyStr.endswith. rewrite length_app. cbn [String.length].
  replace (String.length k + 2 - 2) with (String.length k) by lia.
  rewrite drop_app_length, String.eqb_refl.
  rewrite andb_true_r. apply Nat.leb_le. lia.
Qed.

Lemma drop_last_brackets (k : string) : PyStr.drop_last 2 (k +:+ "[]") = k.
Proof.
  unfold PyStr.drop_last. rewrite length_app. cbn [String.length].
  replace (String.length k + 2 - 2) with (String.length k) by lia.
  apply take_app_length.
Qed.

(** What one scalar line does. *)
Lemma read_scalar_line (kvs : gmap string value) (k v : string) :
  no_char "=" k = true -> PyStr.endswith "[]" k = false ->
  read_stdin_pair kvs (k +:+ "=" +:+ v) = Ok (<[k := VStr (PyStr.rstrip v)]> kvs).
Proof.
  intros Hk He. unfold read_stdin_pair. rewrite split_line by exact Hk.
  now rewrite He.
Qed.

(** What one line of a multi-valued key does, in terms of the value left
    after stripping. *)
Lemma read_multi_line (kvs : gmap string value) (k v : string) :
  no_char "=" k = true ->
  read_stdin_pair kvs (k +:+ "[]=" +:+ v) =
  let value := PyStr.rstrip v in
  let kvs' := if negb (has_key kvs k) || String.eqb value EmptyString
              then <[k := VList []]> kvs else kvs in
  match kvs' !! k with
  | Some (VList l) => Ok (<[k := VList (l ++ [value])]> kvs')
  | Some (VStr _) => Err AttributeError
  | None => Err KeyError
  end.
Proof.
  intros Hk. unfold read_stdin_pair.
  change (k +:+ "[]=" +:+ v) with (k +:+ "[]" +:+ "=" +:+ v).
  rewrite <- app_assoc.
  rewrite split_line by (rewrite no_char_app, Hk; reflexivity).
  now rewrite endswith_brackets, drop_last_brackets.
Qed.

Lemma read_stdin_from_app (kvs : gmap string value) (l1 l2 : list string) :
  read_stdin_from kvs (l1 ++ l2) =
  res_bind (read_stdin_from kvs l1) (fun kvs1 => read_stdin_from kvs1 l2).
Proof.
  revert kvs; induction l1 as [|line l1 IH]; intros kvs; [reflexivity | ].
  cbn [app read_stdin_from].
  destruct (read_stdin_pair kvs line) as [kvs'|e]; [apply IH | reflexivity].
Qed.

End LineFacts.

(** X1: a scalar line sets its key to the stripped value whatever the lines
    before it did to that key, and leaves every other key as it was. *)
Theorem scalar_last_assignment_wins :
  forall (kvs kvs1 : gmap string value) (lines : list string) (k v : string),
    no_char "=" k = true -> PyStr.endswith "[]" k = false ->
    read_stdin_from kvs lines = Ok kvs1 ->
    read_stdin_from kvs (lines ++ [k +:+ "=" +:+ v])
    = Ok (<[k := VStr (PyStr.rstrip v)]> kvs1).
Proof.
  intros kvs kvs1 lines k v Hk He H.
  rewrite read_stdin_from_app, H. cbn [res_bind read_stdin_from].
  now rewrite read_scalar_line.
Qed.

Lemma scalar_last_assignment_wins_witness :
  read_stdin_from ∅ (["host=one" +:+ nl; "host[]=" +:+ nl; "host[]=two" +:+ nl]
                     ++ ["host=three" +:+ nl])
  = Ok (<["host" := VStr (PyStr.rstrip ("three" +:+ nl))]>
          {[ "host" := VList [EmptyString; "two"] ]}).
Proof.
  apply (scalar_last_assignment_wins ∅ {[ "host" := VList [EmptyString; "two"] ]}
           ["host=one" +:+ nl; "host[]=" +:+ nl; "host[]=two" +:+ nl]
           "host" ("three" +:+ nl));
    vm_compute; reflexivity.
Defined.

(** X2: the values of a multi-valued key that are not blank are collected in
    arrival order, after the values the key already had, or from scratch
    when the key is new. *)
Theorem multi_valued_key_accumulates :
  forall (kvs : gmap string value) (k : string) (vs : list string),
    no_char "=" k = true ->
    Forall (fun v => PyStr.rstrip v <> EmptyString) vs ->
    (forall l, kvs !! k = Some (VList l) ->
               read_stdin_from kvs (map (fun v => k +:+ "[]=" +:+ v) vs)
               = Ok (<[k := VList (l ++ map PyStr.rstrip vs)]> kvs))
    /\ (kvs !! k = None -> vs <> [] ->
        read_stdin_from kvs (map (fun v => k +:+ "[]=" +:+ v) vs)
        = Ok (<[k := VList (map PyStr.rstrip vs)]> kvs)).
Proof.
  intros kvs k vs Hk Hvs.
  assert (Hacc : forall vs kvs l,
             Forall (fun v => PyStr.rstrip v <> EmptyString) vs ->
             kvs !! k = Some (VList l) ->
             read_stdin_from kvs (map (fun v => k +:+ "[]=" +:+ v) vs)
             = Ok (<[k := VList (l ++ map PyStr.rstrip vs)]> kvs)).
  { clear kvs vs Hvs. intros vs. induction vs as [|v vs IH]; intros kvs l Hvs Hl.
    - cbn [map read_stdin_from]. rewrite List.app_nil_r. now rewrite insert_id.
    - inversion Hvs as [|? ? Hv Hvs']; subst.
      cbn [map read_stdin_from]. rewrite read_multi_line by exact Hk.
      cbn zeta. unfold has_key. rewrite bool_decide_eq_true_2 by (rewrite Hl; eauto).
      apply String.eqb_neq in Hv. rewrite Hv. cbn [negb orb]. rewrite Hl.
      cbn [res_bind].
      rewrite (IH _ (l ++ [PyStr.rstrip v]) Hvs') by apply lookup_insert_eq.
      rewrite insert_insert_eq. now rewrite <- List.app_assoc. }
  split; [intros l Hl; now apply Hacc | ].
  intros Hnone Hne. destruct vs as [|v vs]; [contradiction | ].
  inversion Hvs as [|? ? Hv Hvs']; subst.
  cbn [map read_stdin_from]. rewrite read_multi_line by exact Hk.
  cbn zeta. unfold has_key.
  rewrite bool_decide_eq_false_2 by (rewrite Hnone; intros [? ?]; discriminate).
  cbn [negb orb]. rewrite lookup_insert_eq. cbn [res_bind app].
  rewrite (Hacc vs _ [PyStr.rstrip v] Hvs') by apply lookup_insert_eq.
  now rewrite !insert_insert_eq.
Qed.

Lemma multi_valued_key_accumulates_witness :
  read_stdin_from {[ "wwwauth" := VList ["Basic"] ]}
    (map (fun v => "wwwauth" +:+ "[]=" +:+ v) ["Negotiate" +:+ nl; "Bearer x=y  " +:+ nl])
  = Ok (<["wwwauth" := VList (["Basic"]
            ++ map PyStr.rstrip ["Negotiate" +:+ nl; "Bearer x=y  " +:+ nl])]>
          {[ "wwwauth" := VList ["Basic"] ]})
  /\ read_stdin_from ∅
       (map (fun v => "wwwauth" +:+ "[]=" +:+ v) ["Negotiate" +:+ nl; "Bearer" +:+ nl])
     = Ok (<["wwwauth" := VList (map PyStr.rstrip ["Negotiate" +:+ nl; "Bearer" +:+ nl])]> ∅).
Proof.
  split.
  - apply (proj1 (multi_valued_key_accumulates {[ "wwwauth" := VList ["Basic"] ]}
                    "wwwauth" ["Negotiate" +:+ nl; "Bearer x=y  " +:+ nl]
                    eq_refl ltac:(repeat constructor; discriminate))).
    reflexivity.
  - apply (proj2 (multi_valued_key_accumulates ∅
                    "wwwauth" ["Negotiate" +:+ nl; "Bearer" +:+ nl]
                    eq_refl ltac:(repeat constructor; discriminate)));
      [reflexivity | discriminate].
Defined.




(** X4: a multi-valued line for a key that holds a scalar raises
    [AttributeError], unless its value is blank, in which case the key is
    reset to the list of the one empty text. *)
Theorem multi_valued_line_on_scalar_key :
  forall (kvs : gmap string value) (k s v : string),
    no_char "=" k = true ->
    kvs !! k = Some (VStr s) ->
    read_stdin_pair kvs (k +:+ "[]=" +:+ v)
    = if String.eqb (PyStr.rstrip v) EmptyString
      then Ok (<[k := VList [EmptyString]]> kvs)
      else Err AttributeError.
Proof.
  intros kvs k s v Hk Hs. rewrite read_multi_line by exact Hk. cbn zeta.
  unfold has_key. rewrite bool_decide_eq_true_2 by (rewrite Hs; eauto).
  cbn [negb orb].
  destruct (String.eqb (PyStr.rstrip v) EmptyString) eqn:E.
  - rewrite lookup_insert_eq. apply String.eqb_eq in E. rewrite E.
    now rewrite insert_insert_eq.
  - now rewrite Hs.
Qed.

Lemma multi_valued_line_on_scalar_key_witness :
  read_stdin_pair {[ "capability" := VStr "authtype" ]}
    ("capability" +:+ "[]=" +:+ ("state" +:+ nl))
  = Err AttributeError
  /\ read_stdin_pair {[ "capability" := VStr "authtype" ]}
       ("capability" +:+ "[]=" +:+ (" " +:+ nl))
     = Ok (<["capability" := VList [EmptyString]]> {[ "capability" := VStr "authtype" ]}).
Proof.
  split.
  - apply (multi_valued_line_on_scalar_key {[ "capability" := VStr "authtype" ]}
             "capability" "authtype" ("state" +:+ nl)); reflexivity.
  - apply (multi_valued_line_on_scalar_key {[ "capability" := VStr "authtype" ]}
             "capability" "authtype" (" " +:+ nl)); reflexivity.
Defined.

(** ** The gate and the configuration lookup *)

Lemma no_single_character_is_a_challenge (s : string) :
  existsb bearer_match (PyStr.chars s) = false.
Proof.
  induction s as [|c s IH]; [reflexivity | ].
  cbn [PyStr.chars existsb]. rewrite IH, orb_false_r, bearer_match_startswith.
  unfold PyStr.startswith. cbn [PyStr.strip_prefix].
  now destruct (Ascii.eqb "B" c).
Qed.

(** X5: when [wwwauth] arrived as a scalar line, the loop of the gate runs
    over its characters, none of which is a challenge: the gate stays shut
    even for the text [Bearer]. *)
Theorem scalar_wwwauth_is_never_accepted :
  forall (helper_pairs : gmap string value) (s : string),
    helper_pairs !! "wwwauth" = Some (VStr s) ->
    bearer_accepted helper_pairs = false.
Proof.
  intros hp s H. unfold bearer_accepted, has_key. rewrite H.
  rewrite bool_decide_eq_true_2 by eauto. cbn [negb py_iter].
  apply no_single_character_is_a_challenge.
Qed.

Lemma scalar_wwwauth_is_never_accepted_witness :
  bearer_accepted {[ "wwwauth" := VStr "Bearer realm=x" ]} = false
  /\ res_bind (read_stdin_pairs ["wwwauth=Bearer" +:+ nl])
              (fun kvs => Ok (bearer_accepted kvs)) = Ok false.
Proof.
  split.
  - apply (scalar_wwwauth_is_never_accepted _ "Bearer realm=x"). reflexivity.
  - vm_compute. reflexivity.
Defined.

(** X6: the configuration lookup gives nothing, without decoding anything,
    when the subprocess fails; otherwise it decodes the output without its
    trailing ASCII white space: a decoding error escapes, an empty text gives
    nothing, any other text is the value.  A value it gives is never empty,
    and is the decoding of bytes that do not end in ASCII white space. *)
Theorem config_lookup_value :
  forall {TC HC} (env : Env TC HC) (url key : string) (returncode : Z) (out : string),
    git_config env key url = (returncode, out) ->
    (returncode <> 0%Z -> git_config_get_urlmatch env url key = Ok None)
    /\ (forall e, returncode = 0%Z ->
                  bytes_decode env (PyStr.rstrip_bytes out) = Err e ->
                  git_config_get_urlmatch env url key = Err e)
    /\ (returncode = 0%Z ->
        bytes_decode env (PyStr.rstrip_bytes out) = Ok EmptyString ->
        git_config_get_urlmatch env url key = Ok None)
    /\ (forall v, returncode = 0%Z ->
                  bytes_decode env (PyStr.rstrip_bytes out) = Ok v ->
                  v <> EmptyString ->
                  git_config_get_urlmatch env url key = Ok (Some v))
    /\ (forall v, git_config_get_urlmatch env url key = Ok (Some v) ->
                  v <> EmptyString
                  /\ exists b, bytes_decode env b = Ok v
                               /\ b = PyStr.rstrip_bytes out
                               /\ PyStr.rstrip_bytes b = b).
Proof.
  intros TC HC env url key rc out H. unfold git_config_get_urlmatch. rewrite H.
  refine (conj _ (conj _ (conj _ (conj _ _)))).
  - intros Hrc. apply Z.eqb_neq in Hrc. now rewrite Hrc.
  - intros e -> He. cbn [Z.eqb negb]. now rewrite He.
  - intros -> Hd. cbn [Z.eqb negb]. now rewrite Hd.
  - intros v -> Hd Hne. cbn [Z.eqb negb]. rewrite Hd. cbn [res_bind].
    apply String.eqb_neq in Hne. now rewrite Hne.
  - intros v. destruct (negb (rc =? 0)%Z); [discriminate | ].
    destruct (bytes_decode env (PyStr.rstrip_bytes out)) as [t|e] eqn:Hd;
      [ | discriminate].
    cbn [res_bind]. destruct (String.eqb t EmptyString) eqn:E; [discriminate | ].
    intros Hv; inversion Hv; subst. split.
    + now apply String.eqb_neq.
    + exists (PyStr.rstrip_bytes out).
      split; [exact Hd | split; [reflexivity | apply rstrip_with_idempotent]].
Qed.

Lemma config_lookup_value_witness :
  git_config_get_urlmatch (Scripted.env Scripted.client_only_config None ∅)
    "https://dev.azure.com" "credential.msalTenantId" = Ok None
  /\ git_config_get_urlmatch
       (Scripted.env (fun _ _ => (0%Z, String "255" nl)) None ∅)
       "https://dev.azure.com" "credential.msalClientId"
     = Err UnicodeDecodeError
  /\ git_config_get_urlmatch (Scripted.env (fun _ _ => (0%Z, " " +:+ nl)) None ∅)
       "https://dev.azure.com" "credential.msalClientId"
     = Ok None
  /\ git_config_get_urlmatch (Scripted.env Scripted.client_only_config None ∅)
       "https://dev.azure.com" "credential.msalClientId"
     = Ok (Some "CFG-C")
  /\ ("CFG-C" <> EmptyString
      /\ exists b, Scripted.ascii_decode b = Ok "CFG-C"
                   /\ b = PyStr.rstrip_bytes ("CFG-C" +:+ nl)
                   /\ PyStr.rstrip_bytes b = b).
Proof.
  refine (conj _ (conj _ (conj _ (conj _ _)))).
  - apply (proj1 (config_lookup_value (Scripted.env Scripted.client_only_config None ∅)
                    "https://dev.azure.com" "credential.msalTenantId"
                    1%Z EmptyString eq_refl)).
    discriminate.
  - apply (proj1 (proj2 (config_lookup_value
                    (Scripted.env (fun _ _ => (0%Z, String "255" nl)) None ∅)
                    "https://dev.azure.com" "credential.msalClientId"
                    0%Z (String "255" nl) eq_refl)) UnicodeDecodeError);
      reflexivity.
  - apply (proj1 (proj2 (proj2 (config_lookup_value
                    (Scripted.env (fun _ _ => (0%Z, " " +:+ nl)) None ∅)
                    "https://dev.azure.com" "credential.msalClientId"
                    0%Z (" " +:+ nl) eq_refl))));
      reflexivity.
  - apply (proj1 (proj2 (proj2 (proj2 (config_lookup_value
                    (Scripted.env Scripted.client_only_config None ∅)
                    "https://dev.azure.com" "credential.msalClientId"
                    0%Z ("CFG-C" +:+ nl) eq_refl)))) "CFG-C");
      [reflexivity | reflexivity | discriminate].
  - apply (proj2 (proj2 (proj2 (proj2 (config_lookup_value
                    (Scripted.env Scripted.client_only_config None ∅)
                    "https://dev.azure.com" "credential.msalClientId"
                    0%Z ("CFG-C" +:+ nl) eq_refl)))) "CFG-C").
    reflexivity.
Defined.

(** ** Whole identities *)

Lemma wwwauth_loop_whole (auths : list string) :
  wwwauth_loop auths None None = (None, None)
  \/ exists c t, wwwauth_loop auths None None = (Some c, Some t).
Proof.
  induction auths as [|a auths IH]; [now left | ].
  rewrite wwwauth_loop_step.
  destruct (challenge_ids a) as [[c t]|]; [right; eauto | exact IH].
Qed.

Lemma resolve_identity_whole {TC HC} (env : Env TC HC)
    (helper_pairs : gmap string value) (c t : option string) :
  resolve_identity env helper_pairs = Ok (c, t) ->
  (c = None /\ t = None) \/ (exists c' t', c = Some c' /\ t = Some t').
Proof.
  unfold resolve_identity.
  destruct (extract_entra_ids_from_git_config env helper_pairs) as [[gc gt]|e];
    [ | discriminate].
  cbn [res_bind].
  assert (Hw : extract_entra_ids_from_wwwauth helper_pairs = Ok (c, t) ->
               (c = None /\ t = None) \/ (exists c' t', c = Some c' /\ t = Some t')).
  { unfold extract_entra_ids_from_wwwauth.
    destruct (getitem helper_pairs "protocol"); [ | discriminate].
    destruct (getitem helper_pairs "host"); [ | discriminate].
    destruct (getitem helper_pairs "wwwauth") as [w|]; [ | discriminate].
    cbn [res_bind]. intros H; inversion H as [Hl].
    destruct (wwwauth_loop_whole (py_iter w)) as [E | (c' & t' & E)];
      rewrite E in Hl; inversion Hl; subst; [now left | right; eauto]. }
  destruct gc as [gc|], gt as [gt|]; try exact Hw.
  intros H; inversion H; subst. right; eauto.
Qed.

(** X7: the challenge values give both identifiers or neither, and so does
    identity resolution as a whole: no run goes on with one half set. *)
Theorem identity_is_whole_or_absent :
  (forall auths : list string,
      wwwauth_loop auths None None = (None, None)
      \/ exists c t, wwwauth_loop auths None None = (Some c, Some t))
  /\ (forall {TC HC} (env : Env TC HC) (helper_pairs : gmap string value)
             (c t : option string),
      resolve_identity env helper_pairs = Ok (c, t) ->
      (c = None /\ t = None) \/ (exists c' t', c = Some c' /\ t = Some t')).
Proof.
  split; [apply wwwauth_loop_whole | ].
  intros TC HC env hp c t H. exact (resolve_identity_whole env hp c t H).
Qed.

Lemma identity_is_whole_or_absent_witness :
  resolve_identity (Scripted.env Scripted.client_only_config None ∅)
    {[ "protocol" := VStr "https"; "host" := VStr "dev.azure.com";
       "wwwauth" := VList ["Bearer msal-tenant-id=T"] ]}
  = Ok (None, None)
  /\ (((@None string) = None /\ (@None string) = None)
      \/ (exists c' t' : string, None = Some c' /\ None = Some t')).
Proof.
  split; [vm_compute; reflexivity | ].
  apply (proj2 identity_is_whole_or_absent _ _
           (Scripted.env Scripted.client_only_config None ∅)
           {[ "protocol" := VStr "https"; "host" := VStr "dev.azure.com";
              "wwwauth" := VList ["Bearer msal-tenant-id=T"] ]} None None).
  vm_compute. reflexivity.
Defined.

(** ** When a challenge gives an identity *)

Section ChallengeFacts.

Local Arguments String.append : simpl nomatch.

Implicit Types (k : st -> option groups) (g : groups) (p : nat) (s : string).

(** The result of a repetition is a result of its continuation. *)
Lemma star_greedy_result c g p s k r :
  star_greedy c g p s k = Some r ->
  exists j, k (St (p + j) (PyStr.drop j s) g) = Some r.
Proof.
  revert p; induction s as [|a s IH]; intros p; cbn [star_greedy].
  - intros H. exists 0. now rewrite Nat.add_0_r.
  - assert (H0 : k (St p (String a s) g) = Some r ->
                 exists j, k (St (p + j) (PyStr.drop j (String a s)) g) = Some r).
    { intros H. exists 0. now rewrite Nat.add_0_r. }
    destruct (cls_match c a); [ | exact H0].
    destruct (star_greedy c g (S p) s k) as [r'|] eqn:E; [ | exact H0].
    intros H; inversion H; subst r'.
    destruct (IH _ E) as [j Hj]. exists (S j).
    now rewrite Nat.add_succ_r.
Qed.

Lemma star_lazy_result c g p s k r :
  star_lazy c g p s k = Some r ->
  exists j, k (St (p + j) (PyStr.drop j s) g) = Some r.
Proof.
  revert p; induction s as [|a s IH]; intros p; cbn [star_lazy].
  - destruct (k (St p EmptyString g)) as [r'|] eqn:E; [ | discriminate].
    intros H; inversion H; subst. exists 0. now rewrite Nat.add_0_r.
  - destruct (k (St p (String a s) g)) as [r'|] eqn:E.
    + intros H; inversion H; subst. exists 0. now rewrite Nat.add_0_r.
    + destruct (cls_match c a); [ | discriminate].
      intros H. destruct (IH _ H) as [j Hj]. exists (S j).
      now rewrite Nat.add_succ_r.
Qed.

(** On one line the greedy run reaches every place, so the pattern matches
    as soon as its continuation does somewhere. *)
Lemma star_greedy_dot_Some g p s k j :
  no_char "010" s = true -> j <= String.length s ->
  is_Some (k (St (p + j) (PyStr.drop j s) g)) ->
  is_Some (star_greedy Dot g p s k).
Proof.
  revert p j; induction s as [|a s IH]; intros p j Hs Hj Hk;
    cbn [star_greedy no_char String.length] in *.
  - assert (j = 0) as -> by lia. now rewrite Nat.add_0_r in Hk.
  - apply andb_true_iff in Hs as [Ha Hs]. cbn [cls_match]. rewrite Ha.
    destruct j as [|j].
    + rewrite Nat.add_0_r in Hk. cbn [PyStr.drop] in Hk.
      destruct (star_greedy Dot g (S p) s k); [eauto | exact Hk].
    + cbn [PyStr.drop] in Hk. rewrite Nat.add_succ_r in Hk.
      destruct (IH (S p) j Hs ltac:(lia) Hk) as [r Hr]. rewrite Hr. eauto.
Qed.

Lemma contains_true_drop (needle hay : string) :
  PyStr.contains needle hay = true ->
  exists j, j <= String.length hay
            /\ PyStr.startswith needle (PyStr.drop j hay) = true.
Proof.
  induction hay as [|c hay IH]; cbn [PyStr.contains]; intros H.
  - rewrite orb_false_r in H. exists 0. now split.
  - apply orb_true_iff in H as [H | H].
    + exists 0. split; [lia | exact H].
    + destruct (IH H) as (j & Hj & Hs). exists (S j).
      split; [cbn [String.length]; lia | exact Hs].
Qed.

(** The three alternatives never fail after an equals sign, and whichever of
    them ends the match has set its group. *)
Lemma alternatives_is_Some q (tail : string) g :
  is_Some (run param_alternatives (St q ("=" +:+ tail) g) final).
Proof.
  unfold param_alternatives. cbn [run pos rest caps].
  match goal with
  | |- is_Some (match ?a with Some x => Some x | None => ?b end) =>
      destruct a; [eauto | ]
  end.
  cbn [String.append]. rewrite strip_prefix_cons, strip_prefix_nil.
  apply star_greedy_is_Some. intros σ. unfold final. eauto.
Qed.

Lemma alternatives_set_a_group q (y : string) (r : groups) :
  run param_alternatives (St q y (replicate 3 None)) final = Some r ->
  exists v, first_subgroup r None = Some v.
Proof.
  unfold param_alternatives. cbn [run pos rest caps].
  destruct (PyStr.strip_prefix ("=" +:+ dquote) y) as [y1|].
  - destruct (star_lazy Dot (replicate 3 None) _ y1 _) as [r1|] eqn:E1.
    + intros H; inversion H; subst r1.
      apply star_lazy_result in E1 as [j Hj]. cbn [rest pos caps] in Hj.
      destruct (PyStr.strip_prefix dquote _); [ | discriminate].
      unfold final in Hj. cbn [caps] in Hj. inversion Hj. eexists. reflexivity.
    + destruct (PyStr.strip_prefix "=" y) as [y2|]; [ | discriminate].
      destruct (star_lazy Dot (replicate 3 None) _ y2 _) as [r2|] eqn:E2.
      * intros H; inversion H; subst r2.
        apply star_lazy_result in E2 as [j Hj]. cbn [rest pos caps] in Hj.
        destruct (PyStr.strip_prefix "," _); [ | discriminate].
        unfold final in Hj. cbn [caps] in Hj. inversion Hj. eexists. reflexivity.
      * intros H. apply star_greedy_result in H as [j Hj].
        unfold final in Hj. cbn [caps] in Hj. inversion Hj. eexists. reflexivity.
  - destruct (PyStr.strip_prefix "=" y) as [y2|]; [ | discriminate].
    destruct (star_lazy Dot (replicate 3 None) _ y2 _) as [r2|] eqn:E2.
    + intros H; inversion H; subst r2.
      apply star_lazy_result in E2 as [j Hj]. cbn [rest pos caps] in Hj.
      destruct (PyStr.strip_prefix "," _); [ | discriminate].
      unfold final in Hj. cbn [caps] in Hj. inversion Hj. eexists. reflexivity.
    + intros H. apply star_greedy_result in H as [j Hj].
      unfold final in Hj. cbn [caps] in Hj. inversion Hj. eexists. reflexivity.
Qed.

(** On one line a parameter pattern gives a value exactly when its key is
    assigned somewhere. *)
Lemma param_value_is_Some (key auth : string) :
  no_char "010" auth = true ->
  PyStr.contains (key +:+ "=") auth = true ->
  is_Some (param_value (wwwauth_param_matcher key) auth).
Proof.
  intros Hline Hc. apply contains_true_drop in Hc as (j & Hj & Hs).
  apply startswith_true in Hs as [tail Htail]. rewrite app_assoc in Htail.
  unfold param_value, re_match, wwwauth_param_matcher. cbn [run pos rest caps].
  match goal with
  | |- context [star_greedy Dot ?g 0 auth ?k] =>
      destruct (star_greedy_dot_Some g 0 auth k j Hline Hj) as [r Hr]
  end.
  { cbn [run pos rest caps]. rewrite Htail, strip_prefix_app.
    apply alternatives_is_Some. }
  rewrite Hr. apply star_greedy_result in Hr as [j' Hj'].
  cbn [run pos rest caps] in Hj'.
  destruct (PyStr.strip_prefix key (PyStr.drop j' auth)); [ | discriminate].
  apply alternatives_set_a_group in Hj' as [v Hv]. rewrite Hv. eauto.
Qed.

End ChallengeFacts.

(** X8: a challenge value on one line gives an identity exactly when it
    starts with [Bearer] and assigns both [msal-client-id] and
    [msal-tenant-id] somewhere. *)
Theorem challenge_gives_ids_iff :
  forall auth : string,
    one_line auth = true ->
    (is_Some (challenge_ids auth)
     <-> PyStr.startswith "Bearer" auth = true
         /\ assigned "msal-client-id" auth = true
         /\ assigned "msal-tenant-id" auth = true).
Proof.
  intros auth Hline. unfold challenge_ids, assigned, one_line in *.
  rewrite bearer_match_startswith. split.
  - destruct (PyStr.startswith "Bearer" auth); [ | intros [? ?]; discriminate].
    destruct (PyStr.contains ("msal-client-id" +:+ "=") auth) eqn:Ec.
    + destruct (PyStr.contains ("msal-tenant-id" +:+ "=") auth) eqn:Et; [now auto | ].
      unfold wwwauth_tenant_id_matcher. rewrite (param_value_absent _ _ Et).
      destruct (param_value wwwauth_client_id_matcher auth); intros [? ?]; discriminate.
    + unfold wwwauth_client_id_matcher. rewrite (param_value_absent _ _ Ec).
      intros [? ?]; discriminate.
  - intros (-> & Hc & Ht).
    destruct (param_value_is_Some "msal-client-id" auth Hline Hc) as [c Hc'].
    destruct (param_value_is_Some "msal-tenant-id" auth Hline Ht) as [t Ht'].
    unfold wwwauth_client_id_matcher, wwwauth_tenant_id_matcher.
    rewrite Hc', Ht'. eauto.
Qed.

Lemma challenge_gives_ids_iff_witness :
  is_Some (challenge_ids "Bearer msal-tenant-id=T msal-client-id=")
  <-> PyStr.startswith "Bearer" "Bearer msal-tenant-id=T msal-client-id=" = true
      /\ assigned "msal-client-id" "Bearer msal-tenant-id=T msal-client-id=" = true
      /\ assigned "msal-tenant-id" "Bearer msal-tenant-id=T msal-client-id=" = true.
Proof.
  apply (challenge_gives_ids_iff "Bearer msal-tenant-id=T msal-client-id=").
  reflexivity.
Defined.

(** ** The two cache families *)

(** X9: reading the HTTP cache never raises and changes nothing; a missing
    file and a file that does not unpickle both give the empty cache. *)
Theorem http_cache_read_never_fails :
  forall {TC HC} (env : Env TC HC) (name : string) (w : World),
    (exists http_cache, get_http_cache env name w = (Ret http_cache, w))
    /\ (files w !! http_cache_path env name = None ->
        get_http_cache env name w = (Ret (empty_http_cache env), w))
    /\ (forall bytes,
           files w !! http_cache_path env name = Some bytes ->
           pickle_loads env bytes = None ->
           get_http_cache env name w = (Ret (empty_http_cache env), w))
    /\ (forall bytes http_cache,
           files w !! http_cache_path env name = Some bytes ->
           pickle_loads env bytes = Some http_cache ->
           get_http_cache env name w = (Ret http_cache, w)).
Proof.
  intros TC HC env name w.
  unfold get_http_cache, read_file, bind, ret. fold (http_cache_path env name).
  refine (conj _ (conj _ (conj _ _))).
  - eauto.
  - now intros ->.
  - intros bytes -> Hl. now rewrite Hl.
  - intros bytes hc -> Hl. now rewrite Hl.
Qed.

Lemma http_cache_read_never_fails_witness :
  get_http_cache Scripted.quiet_env "n" Scripted.fresh_world
  = (Ret ∅, Scripted.fresh_world)
  /\ get_http_cache Scripted.quiet_env "n"
       (with_files Scripted.fresh_world
          {[ http_cache_path Scripted.quiet_env "n" := "not a pickle" ]})
     = (Ret ∅, with_files Scripted.fresh_world
                 {[ http_cache_path Scripted.quiet_env "n" := "not a pickle" ]})
  /\ get_http_cache Scripted.quiet_env "n"
       (with_files Scripted.fresh_world
          {[ http_cache_path Scripted.quiet_env "n" := "a=b" +:+ nl ]})
     = (Ret {[ "a" := "b" ]},
        with_files Scripted.fresh_world
          {[ http_cache_path Scripted.quiet_env "n" := "a=b" +:+ nl ]}).
Proof.
  refine (conj _ (conj _ _)).
  - apply (proj1 (proj2 (http_cache_read_never_fails Scripted.quiet_env "n"
                           Scripted.fresh_world))).
    reflexivity.
  - apply (proj1 (proj2 (proj2 (http_cache_read_never_fails Scripted.quiet_env "n" _)))
             "not a pickle"); reflexivity.
  - apply (proj2 (proj2 (proj2 (http_cache_read_never_fails Scripted.quiet_env "n" _)))
             ("a=b" +:+ nl) {[ "a" := "b" ]}); vm_compute; reflexivity.
Defined.

(** X10: what [put_http_cache] stores under a name that is a file name,
    [get_http_cache] gives back under the same name, for every cache object
    that [pickle] can restore; the write touches that one file and nothing
    else. *)
Theorem http_cache_round_trip :
  forall {TC HC} (env : Env TC HC) (name : string) (http_cache : HC) (w : World),
    plain_name name = true ->
    pickle_loads env (pickle_dumps env http_cache) = Some http_cache ->
    let w' := snd (put_http_cache env name http_cache w) in
    get_http_cache env name w' = (Ret http_cache, w')
    /\ keyring w' = keyring w /\ stdout w' = stdout w /\ stderr w' = stderr w
    /\ (forall path, path <> http_cache_path env name ->
                     files w' !! path = files w !! path).
Proof.
  intros TC HC env name hc w _ Hp w'. subst w'.
  unfold get_http_cache, put_http_cache, read_file, write_file, bind, ret.
  fold (http_cache_path env name). cbn [snd files keyring stdout stderr].
  rewrite lookup_insert_eq, Hp.
  repeat split. intros path Hne. now rewrite lookup_insert_ne.
Qed.

Lemma http_cache_round_trip_witness :
  get_http_cache Scripted.quiet_env "n"
    (snd (put_http_cache Scripted.quiet_env "n" {[ "a" := "b" ]} Scripted.fresh_world))
  = (Ret {[ "a" := "b" ]},
     snd (put_http_cache Scripted.quiet_env "n" {[ "a" := "b" ]} Scripted.fresh_world)).
Proof.
  apply (http_cache_round_trip Scripted.quiet_env "n" {[ "a" := "b" ]}
           Scripted.fresh_world); vm_compute; reflexivity.
Defined.

(** X11: a changed token cache that was written is read back on the next
    run, provided its serialised text is not empty: from the secure store
    when there is one, and from the insecure file when there is none, the
    caller allowed it, the name is a file name and the text has no carriage
    return (which reading a file in text mode would turn into a newline). *)
Theorem token_cache_round_trip :
  forall {TC HC} (env : Env TC HC) (name : string) (cache cache' : TC)
         (data : string) (allow_insecure : bool) (w : World),
    has_state_changed (msal env) cache = true ->
    serialize (msal env) cache = (data, cache') ->
    data <> EmptyString ->
    is_Some (keyring w)
    \/ (allow_insecure = true /\ plain_name name = true
        /\ no_char "013" data = true) ->
    fst (get_msal_cache env name
           (snd (put_msal_cache env name cache allow_insecure w)))
    = Ret (deserialize (msal env) (new_token_cache (msal env)) data).
Proof.
  intros TC HC env name cache cache' data allow w Hch Hser Hne Hstore.
  apply String.eqb_neq in Hne.
  unfold put_msal_cache, put_msal_cache_insecure, keyring_set_password, write_file,
    bind, ret.
  rewrite Hch, Hser.
  unfold get_msal_cache, get_msal_cache_insecure, keyring_get_password, read_file,
    bind, ret.
  destruct (keyring w) as [k|] eqn:Ek; cbn [snd keyring files].
  - assert (E : <[("system", name) := data]> k !! ("system", name) = Some data)
      by apply lookup_insert_eq.
    rewrite E. cbn [truthy negb]. rewrite Hne. cbn [negb fst truthy].
    now rewrite Hne.
  - destruct Hstore as [[? ?] | (-> & _ & _)]; [discriminate | ].
    cbn [negb snd keyring files]. rewrite Ek. cbn [truthy negb files].
    rewrite lookup_insert_eq. cbn [fst truthy]. now rewrite Hne.
Qed.

Lemma token_cache_round_trip_witness :
  fst (get_msal_cache Scripted.quiet_env "n"
         (snd (put_msal_cache Scripted.quiet_env "n" (Scripted.mkCache "t" true) false
                 Scripted.fresh_world)))
  = Ret (Scripted.mkCache "t" false)
  /\ fst (get_msal_cache Scripted.quiet_env "n"
            (snd (put_msal_cache Scripted.quiet_env "n" (Scripted.mkCache "t" true) true
                    (with_keyring Scripted.fresh_world None))))
     = Ret (Scripted.mkCache "t" false).
Proof.
  split.
  - apply (token_cache_round_trip Scripted.quiet_env "n" (Scripted.mkCache "t" true)
             (Scripted.mkCache "t" false) "t" false Scripted.fresh_world);
      [reflexivity | reflexivity | discriminate | left; now eexists].
  - apply (token_cache_round_trip Scripted.quiet_env "n" (Scripted.mkCache "t" true)
             (Scripted.mkCache "t" false) "t" true
             (with_keyring Scripted.fresh_world None));
      [reflexivity | reflexivity | discriminate | right; repeat split].
Defined.

Lemma cache_family_paths_differ {TC HC} (env : Env TC HC) (n m : string) :
  msal_cache_path env n <> http_cache_path env m.
Proof.
  rewrite msal_cache_path_eq, http_cache_path_eq, !app_assoc.
  intros E. apply app_inv_head in E. discriminate.
Qed.

(** X12: for names that are file names the two families never share a
    file: writing the HTTP cache does not change what the token cache read
    gives, and writing the token cache does not change what the HTTP cache
    read gives. *)
Theorem cache_families_are_separate :
  forall {TC HC} (env : Env TC HC) (n m : string) (http_cache : HC) (cache : TC)
         (allow_insecure : bool) (w : World),
    plain_name n = true -> plain_name m = true ->
    fst (get_msal_cache env n (snd (put_http_cache env m http_cache w)))
    = fst (get_msal_cache env n w)
    /\ fst (get_http_cache env m (snd (put_msal_cache env n cache allow_insecure w)))
       = fst (get_http_cache env m w).
Proof.
  intros TC HC env n m hc cache allow w _ _. split.
  - unfold get_msal_cache, get_msal_cache_insecure, put_http_cache,
      keyring_get_password, read_file, write_file, bind, ret.
    fold (msal_cache_path env n). fold (http_cache_path env m).
    cbn [snd keyring files].
    destruct (keyring w) as [k|].
    + destruct (negb (truthy (k !! ("system", n)))); [ | reflexivity].
      cbn [files fst].
      rewrite lookup_insert_ne
        by (intros E; now apply (cache_family_paths_differ env n m)).
      reflexivity.
    + cbn [truthy negb files fst].
      rewrite lookup_insert_ne
        by (intros E; now apply (cache_family_paths_differ env n m)).
      reflexivity.
  - unfold get_http_cache, put_msal_cache, put_msal_cache_insecure,
      keyring_set_password, read_file, write_file, bind, ret.
    fold (msal_cache_path env n). fold (http_cache_path env m).
    destruct (has_state_changed (msal env) cache); [ | reflexivity].
    destruct (serialize (msal env) cache) as [data cache'].
    destruct (keyring w); [reflexivity | ].
    destruct allow; [ | reflexivity].
    cbn [negb snd fst files].
    now rewrite lookup_insert_ne by apply cache_family_paths_differ.
Qed.

Lemma cache_families_are_separate_witness :
  fst (get_msal_cache Scripted.quiet_env "T_C"
         (snd (put_http_cache Scripted.quiet_env "T_C" {[ "a" := "b" ]}
                 (with_keyring Scripted.fresh_world None))))
  = fst (get_msal_cache Scripted.quiet_env "T_C"
           (with_keyring Scripted.fresh_world None))
  /\ fst (get_http_cache Scripted.quiet_env "T_C"
            (snd (put_msal_cache Scripted.quiet_env "T_C" (Scripted.mkCache "t" true)
                    true (with_keyring Scripted.fresh_world None))))
     = fst (get_http_cache Scripted.quiet_env "T_C"
              (with_keyring Scripted.fresh_world None)).
Proof.
  apply (cache_families_are_separate Scripted.quiet_env "T_C" "T_C" {[ "a" := "b" ]}
           (Scripted.mkCache "t" true) true (with_keyring Scripted.fresh_world None));
    reflexivity.
Defined.

(** ** The acquisition keeps to the diagnostic stream *)

Section Orderly.

Context {TC HC : Type} (env : Env TC HC).

Lemma orderly_ret {A} (a : A) : orderly (ret a).
Proof.
  intros w. cbn. repeat split; [exists []; now rewrite List.app_nil_r | discriminate].
Qed.

Lemma orderly_raise {A} (e : exn) : orderly (@raise A e).
Proof.
  intros w. cbn. repeat split; [exists []; now rewrite List.app_nil_r | discriminate].
Qed.

Lemma orderly_lift {A} (r : res A) : orderly (lift r).
Proof. destruct r; [apply orderly_ret | apply orderly_raise]. Qed.

Lemma orderly_bind {A B} (c : M A) (f : A -> M B) :
  orderly c -> (forall a, orderly (f a)) -> orderly (bind c f).
Proof.
  intros Hc Hf w. unfold bind.
  destruct (Hc w) as (Ho & Hi & [l Hl] & Hx).
  destruct (c w) as [[a|e|z] w1]; cbn [fst snd] in *.
  - destruct (Hf a w1) as (Ho' & Hi' & [l' Hl'] & Hx').
    repeat split; [congruence | congruence | | exact Hx'].
    exists (l ++ l'). rewrite Hl', Hl. now rewrite List.app_assoc.
  - repeat split; [assumption | assumption | eauto | discriminate].
  - now destruct (Hx z).
Qed.

Lemma orderly_print_stderr (line : string) : orderly (print_stderr line).
Proof. intros w. cbn. repeat split; [eauto | discriminate]. Qed.

Lemma orderly_read_file (path : string) : orderly (read_file path).
Proof.
  intros w. cbn. repeat split; [exists []; now rewrite List.app_nil_r | discriminate].
Qed.

Lemma orderly_write_file (path data : string) : orderly (write_file path data).
Proof.
  intros w. cbn. repeat split; [exists []; now rewrite List.app_nil_r | discriminate].
Qed.

Lemma orderly_keyring_get (service name : string) :
  orderly (keyring_get_password service name).
Proof.
  intros w. unfold keyring_get_password. destruct (keyring w); cbn;
    (repeat split; [exists []; now rewrite List.app_nil_r | discriminate]).
Qed.

Lemma orderly_keyring_set (service name data : string) :
  orderly (keyring_set_password service name data).
Proof.
  intros w. unfold keyring_set_password. destruct (keyring w); cbn;
    (repeat split; [exists []; now rewrite List.app_nil_r | discriminate]).
Qed.

Lemma orderly_get_msal_cache (name : string) : orderly (get_msal_cache env name).
Proof.
  unfold get_msal_cache, get_msal_cache_insecure.
  apply orderly_bind; [apply orderly_keyring_get | intros got].
  apply orderly_bind; [ | intros; apply orderly_ret].
  destruct (negb _); [apply orderly_read_file | apply orderly_ret].
Qed.

Lemma orderly_put_msal_cache (name : string) (cache : TC) (allow : bool) :
  orderly (put_msal_cache env name cache allow).
Proof.
  unfold put_msal_cache, put_msal_cache_insecure.
  destruct (has_state_changed (msal env) cache); [ | apply orderly_ret].
  destruct (serialize (msal env) cache) as [data cache'].
  apply orderly_bind; [apply orderly_keyring_set | intros stored].
  apply orderly_bind; [ | intros; apply orderly_ret].
  destruct stored; [apply orderly_ret | ].
  destruct (negb allow); [apply orderly_ret | apply orderly_write_file].
Qed.

Lemma orderly_get_http_cache (name : string) : orderly (get_http_cache env name).
Proof.
  unfold get_http_cache.
  apply orderly_bind; [apply orderly_read_file | intros; apply orderly_ret].
Qed.

Lemma orderly_put_http_cache (name : string) (hc : HC) :
  orderly (put_http_cache env name hc).
Proof. unfold put_http_cache. apply orderly_write_file. Qed.

Lemma orderly_msal_acquire (client_id tenant_id : string) (dc allow : bool) :
  orderly (msal_acquire_oidc_id_token env client_id tenant_id dc allow).
Proof.
  unfold msal_acquire_oidc_id_token.
  apply orderly_bind; [apply orderly_get_msal_cache | intros cache].
  apply orderly_bind; [apply orderly_get_http_cache | intros http_cache].
  destruct (get_accounts _ _ _) as [accounts heap].
  destruct (match accounts with _ :: _ => _ | [] => _ end) as [result heap'].
  apply orderly_bind.
  - destruct result as [r|]; [apply orderly_ret | ].
    destruct dc; [ | apply orderly_ret].
    destruct (initiate_device_flow _ _ _ _) as [flow heap''].
    apply orderly_bind; [apply orderly_lift | intros message].
    apply orderly_bind; [apply orderly_print_stderr | intros; apply orderly_ret].
  - intros [result' heap''].
    apply orderly_bind.
    + destruct (has_key result' "error").
      * apply orderly_bind; [apply orderly_lift | intros].
        apply orderly_bind; [apply orderly_print_stderr | intros].
        apply orderly_bind; [apply orderly_lift | intros].
        apply orderly_bind; [apply orderly_print_stderr | intros; apply orderly_ret].
      * destruct (get_accounts _ _ _) as [accounts' heap3].
        apply orderly_bind; [apply orderly_lift | intros].
        apply orderly_bind; [apply orderly_lift | intros].
        apply orderly_bind; [apply orderly_lift | intros].
        apply orderly_bind; [apply orderly_lift | intros; apply orderly_ret].
    + intros [id_token [cache' http_cache']].
      apply orderly_bind; [apply orderly_put_msal_cache | intros].
      apply orderly_bind; [apply orderly_put_http_cache | intros; apply orderly_ret].
Qed.

End Orderly.

(** ** Runs of [main] *)

(** X14: once the command line has been parsed, a run of [main] either
    returns, having printed exactly the four lines of an answer and with
    standard output made not inheritable, or it ends some other way, having
    printed nothing of its own on standard output; when it ends by [exit],
    the code is zero. *)
Theorem main_output_discipline :
  forall {TC HC} (env : Env TC HC) (args : Args) (stdin : list string) (w : World),
    match fst (main env args stdin w) with
    | Ret _ =>
        (exists id_token expiry,
            stdout (snd (main env args stdin w))
            = stdout w ++ credential_lines id_token expiry)
        /\ stdout_inheritable (snd (main env args stdin w)) = false
    | Exit code =>
        code = 0%Z /\ stdout (snd (main env args stdin w)) = stdout w
    | Raise _ => stdout (snd (main env args stdin w)) = stdout w
    end.
Proof.
  intros TC HC env args stdin w.
  unfold main, bind, when, lift, ret, exit, raise.
  destruct (negb (String.eqb (command args) "get")); [now split | ].
  destruct (read_stdin_pairs stdin) as [hp|e]; [ | reflexivity].
  destruct (negb (authtype_accepted hp)); [now split | ].
  destruct (negb (bearer_accepted hp)); [now split | ].
  destruct (resolve_identity env hp) as [[c t]|e]; [ | reflexivity].
  destruct c as [c|], t as [t|]; cbn [is_none]; try (now split).
  unfold set_inheritable_stdout.
  match goal with
  | |- context [msal_acquire_oidc_id_token env c t ?d ?i ?w0] =>
      destruct (orderly_msal_acquire env c t d i w0) as (Ho & Hi & _ & Hx);
      destruct (msal_acquire_oidc_id_token env c t d i w0) as [[tok|e|z] w1]
  end; cbn [fst snd stdout stdout_inheritable] in *;
    [ | exact Ho | now destruct (Hx z)].
  destruct tok as [tok|]; [ | exact Ho].
  destruct (jwt_expired_value env (Some tok)) as [expiry|e]; [ | exact Ho].
  unfold print. cbn [fst snd stdout stdout_inheritable format_opt].
  split; [ | exact Hi].
  exists tok, expiry. rewrite Ho. unfold credential_lines.
  now rewrite <- !List.app_assoc.
Qed.

(** X15: when the acquisition returns a token whose payload has an integer
    [exp] claim, [main] returns after printing the four lines, with that
    token and that claim, onto whatever the acquisition left, provided the
    claim is a second of the years 1 to 9999; for a claim outside that range
    the run ends with [OverflowError] and prints nothing. *)
Theorem successful_run_prints_credential :
  forall {TC HC} (env : Env TC HC) (args : Args) (stdin : list string)
         (helper_pairs : gmap string value) (client_id tenant_id id_token : string)
         (claims : gmap string Z) (expiry : Z) (w w1 : World),
    command args = "get" ->
    read_stdin_pairs stdin = Ok helper_pairs ->
    authtype_accepted helper_pairs = true ->
    bearer_accepted helper_pairs = true ->
    resolve_identity env helper_pairs = Ok (Some client_id, Some tenant_id) ->
    msal_acquire_oidc_id_token env client_id tenant_id (device_code args)
      (insecure args) (mkWorld (keyring w) (files w) (stdout w) (stderr w) false)
    = (Ret (Some id_token), w1) ->
    jwt_decode env id_token = Ok claims ->
    claims !! "exp" = Some expiry ->
    ((-62135596800 <= expiry <= 253402300799)%Z ->
     main env args stdin w
     = (Ret tt, mkWorld (keyring w1) (files w1)
                  (stdout w1 ++ credential_lines id_token expiry)
                  (stderr w1) (stdout_inheritable w1)))
    /\ (~ (-62135596800 <= expiry <= 253402300799)%Z ->
        main env args stdin w = (Raise OverflowError, w1)).
Proof.
  intros TC HC env args stdin hp c t tok claims expiry w w1
    Hc Hr Ha Hb Hi Hacq Hj He.
  unfold main, bind, when, lift, ret, raise.
  rewrite Hc, Hr. cbn [String.eqb Ascii.eqb Bool.eqb negb].
  rewrite Ha, Hb, Hi. cbn [negb is_none].
  unfold set_inheritable_stdout. rewrite Hacq.
  unfold jwt_expired_value, getitem. rewrite Hj. cbn [res_bind]. rewrite He.
  cbn [res_bind]. split.
  - intros [Hlo Hhi]. apply Z.leb_le in Hlo, Hhi. rewrite Hlo, Hhi. cbn [andb].
    unfold print, credential_lines.
    cbn [keyring files stdout stderr stdout_inheritable format_opt].
    now rewrite <- !List.app_assoc.
  - intros Hout.
    destruct ((-62135596800 <=? expiry) && (expiry <=? 253402300799))%Z eqn:E;
      [ | reflexivity].
    apply andb_true_iff in E as [Hlo Hhi]. apply Z.leb_le in Hlo, Hhi.
    now destruct Hout.
Qed.

Lemma successful_run_prints_credential_witness :
  main (Scripted.env Scripted.no_config None {[ "id_token" := "x" ]})
    (mkArgs "get" false false) Scripted.request Scripted.fresh_world
  = (Ret tt,
     mkWorld (Some {[ ("system", "git-credential-msal_T_C") := "id-token" ]})
       {[ http_cache_path Scripted.quiet_env "git-credential-msal_T_C"
          := "login=cached" +:+ nl ]}
       ([] ++ credential_lines "id-token" 1700000000)
       [] false).
Proof.
  assert (H := successful_run_prints_credential
           (Scripted.env Scripted.no_config None {[ "id_token" := "x" ]})
           (mkArgs "get" false false) Scripted.request
           {[ "protocol" := VStr "https"; "host" := VStr "dev.azure.com";
              "capability" := VList ["authtype"];
              "wwwauth" := VList [PyStr.drop 10 Scripted.challenge] ]}
           "C" "T" "id-token" {[ "exp" := 1700000000%Z ]} 1700000000%Z
           Scripted.fresh_world
           (mkWorld (Some {[ ("system", "git-credential-msal_T_C") := "id-token" ]})
              {[ http_cache_path Scripted.quiet_env "git-credential-msal_T_C"
                 := "login=cached" +:+ nl ]} [] [] false)).
  cbn [keyring files stdout stderr stdout_inheritable] in H.
  apply H; [vm_compute; reflexivity .. | lia].
Defined.

(** X16: a run for another command than [get] exits with code zero before
    reading its input, and a [get] run whose input does not pass both gates
    exits with code zero right after parsing; neither changes anything. *)
Theorem not_applicable_runs_exit_silently :
  forall {TC HC} (env : Env TC HC) (args : Args) (stdin : list string) (w : World),
    (command args <> "get" -> main env args stdin w = (Exit 0%Z, w))
    /\ (forall helper_pairs,
           command args = "get" ->
           read_stdin_pairs stdin = Ok helper_pairs ->
           authtype_accepted helper_pairs = false
           \/ bearer_accepted helper_pairs = false ->
           main env args stdin w = (Exit 0%Z, w)).
Proof.
  intros TC HC env args stdin w. unfold main, bind, when, lift, ret, exit. split.
  - intros Hc. apply String.eqb_neq in Hc. now rewrite Hc.
  - intros hp Hc Hr Hg. rewrite Hc, Hr. cbn [String.eqb Ascii.eqb Bool.eqb negb].
    destruct Hg as [-> | Hb]; [reflexivity | ].
    rewrite Hb. now destruct (authtype_accepted hp).
Qed.

Lemma not_applicable_runs_exit_silently_witness :
  main Scripted.quiet_env (mkArgs "store" false false) ["no equals sign"]
    Scripted.fresh_world
  = (Exit 0%Z, Scripted.fresh_world)
  /\ main Scripted.quiet_env (mkArgs "get" false false)
       ["protocol=https" +:+ nl; "wwwauth[]=Bearer" +:+ nl] Scripted.fresh_world
     = (Exit 0%Z, Scripted.fresh_world).
Proof.
  split.
  - apply (proj1 (not_applicable_runs_exit_silently Scripted.quiet_env
                    (mkArgs "store" false false) ["no equals sign"]
                    Scripted.fresh_world)).
    discriminate.
  - apply (proj2 (not_applicable_runs_exit_silently Scripted.quiet_env
                    (mkArgs "get" false false)
                    ["protocol=https" +:+ nl; "wwwauth[]=Bearer" +:+ nl]
                    Scripted.fresh_world)
             {[ "protocol" := VStr "https"; "wwwauth" := VList ["Bearer"] ]});
      [reflexivity | vm_compute; reflexivity | left; vm_compute; reflexivity].
Defined.

(** X17: when identity resolution leaves a half unset it leaves both unset,
    so the run names both the client id and the tenant id as missing and
    exits with code zero, printing nothing else. *)
Theorem unresolved_identity_reports_both_halves :
  forall {TC HC} (env : Env TC HC) (args : Args) (stdin : list string)
         (helper_pairs : gmap string value) (c t : option string) (w : World),
    command args = "get" ->
    read_stdin_pairs stdin = Ok helper_pairs ->
    authtype_accepted helper_pairs = true ->
    bearer_accepted helper_pairs = true ->
    resolve_identity env helper_pairs = Ok (c, t) ->
    c = None \/ t = None ->
    main env args stdin w
    = (Exit 0%Z, mkWorld (keyring w) (files w) (stdout w)
                   (stderr w ++ missing_identity_lines) (stdout_inheritable w)).
Proof.
  intros TC HC env args stdin hp c t w Hc Hr Ha Hb Hi Hnone.
  assert (c = None /\ t = None) as [-> ->].
  { destruct (resolve_identity_whole env hp c t Hi) as [? | (c' & t' & -> & ->)];
      [assumption | destruct Hnone; discriminate]. }
  unfold main, bind, when, lift, ret, exit.
  rewrite Hc, Hr. cbn [String.eqb Ascii.eqb Bool.eqb negb].
  rewrite Ha, Hb, Hi. cbn [negb is_none]. unfold print_stderr.
  cbn [keyring files stdout stderr stdout_inheritable].
  unfold missing_identity_lines. now rewrite <- List.app_assoc.
Qed.

Lemma unresolved_identity_reports_both_halves_witness :
  main (Scripted.env Scripted.client_only_config None ∅) (mkArgs "get" false false)
    ["protocol=https" +:+ nl; "host=dev.azure.com" +:+ nl;
     "capability[]=authtype" +:+ nl; "wwwauth[]=Bearer msal-tenant-id=T" +:+ nl]
    Scripted.fresh_world
  = (Exit 0%Z, mkWorld (Some ∅) ∅ [] ([] ++ missing_identity_lines) true).
Proof.
  apply (unresolved_identity_reports_both_halves
           (Scripted.env Scripted.client_only_config None ∅) (mkArgs "get" false false)
           ["protocol=https" +:+ nl; "host=dev.azure.com" +:+ nl;
            "capability[]=authtype" +:+ nl; "wwwauth[]=Bearer msal-tenant-id=T" +:+ nl]
           {[ "protocol" := VStr "https"; "host" := VStr "dev.azure.com";
              "capability" := VList ["authtype"];
              "wwwauth" := VList ["Bearer msal-tenant-id=T"] ]}
           None None Scripted.fresh_world);
    try (vm_compute; reflexivity).
  now left.
Defined.

(** X18: a request that passes both gates but has no [protocol] or no [host]
    line ends with [KeyError], before anything is printed or stored. *)
Theorem missing_protocol_or_host_raises :
  forall {TC HC} (env : Env TC HC) (args : Args) (stdin : list string)
         (helper_pairs : gmap string value) (w : World),
    command args = "get" ->
    read_stdin_pairs stdin = Ok helper_pairs ->
    authtype_accepted helper_pairs = true ->
    bearer_accepted helper_pairs = true ->
    helper_pairs !! "protocol" = None \/ helper_pairs !! "host" = None ->
    main env args stdin w = (Raise KeyError, w).
Proof.
  intros TC HC env args stdin hp w Hc Hr Ha Hb Hmiss.
  assert (Hi : resolve_identity env hp = Err KeyError).
  { unfold resolve_identity, extract_entra_ids_from_git_config, getitem.
    destruct Hmiss as [-> | Hh]; [reflexivity | ].
    rewrite Hh. now destruct (hp !! "protocol"). }
  unfold main, bind, when, lift, ret, raise.
  rewrite Hc, Hr. cbn [String.eqb Ascii.eqb Bool.eqb negb].
  now rewrite Ha, Hb, Hi.
Qed.

Lemma missing_protocol_or_host_raises_witness :
  main Scripted.quiet_env (mkArgs "get" false false)
    ["capability[]=authtype" +:+ nl; "wwwauth[]=Bearer" +:+ nl; "protocol=https" +:+ nl]
    Scripted.fresh_world
  = (Raise KeyError, Scripted.fresh_world).
Proof.
  apply (missing_protocol_or_host_raises Scripted.quiet_env (mkArgs "get" false false)
           ["capability[]=authtype" +:+ nl; "wwwauth[]=Bearer" +:+ nl;
            "protocol=https" +:+ nl]
           {[ "capability" := VList ["authtype"]; "wwwauth" := VList ["Bearer"];
              "protocol" := VStr "https" ]}
           Scripted.fresh_world);
    try (vm_compute; reflexivity).
  right. vm_compute. reflexivity.
Defined.

(** ** What the acquisition leaves behind *)

Section AcquisitionFacts.

Context {TC HC : Type} (env : Env TC HC).

(** A sequence that returns has run its first part to the end. *)
Lemma bind_Ret_inv {A B} (c : M A) (f : A -> M B) (w : World) (b : B) :
  fst (bind c f w) = Ret b ->
  exists a, fst (c w) = Ret a /\ bind c f w = f a (snd (c w)).
Proof.
  unfold bind. destruct (c w) as [[a|e|z] w1]; cbn [fst snd]; intros H;
    [eauto | discriminate | discriminate].
Qed.

Lemma get_msal_cache_stderr (name : string) (w : World) :
  stderr (snd (get_msal_cache env name w)) = stderr w.
Proof.
  unfold get_msal_cache, get_msal_cache_insecure, keyring_get_password, read_file,
    bind, ret.
  destruct (keyring w); [ | reflexivity].
  now destruct (negb _).
Qed.

Lemma get_http_cache_stderr (name : string) (w : World) :
  stderr (snd (get_http_cache env name w)) = stderr w.
Proof. reflexivity. Qed.

Lemma put_msal_cache_stderr (name : string) (cache : TC) (allow : bool) (w : World) :
  stderr (snd (put_msal_cache env name cache allow w)) = stderr w.
Proof.
  unfold put_msal_cache, put_msal_cache_insecure, keyring_set_password, write_file,
    bind, ret.
  destruct (has_state_changed (msal env) cache); [ | reflexivity].
  destruct (serialize (msal env) cache) as [data cache'].
  destruct (keyring w); [reflexivity | ].
  now destruct allow.
Qed.

Lemma put_msal_cache_returns (name : string) (cache : TC) (allow : bool) (w : World) :
  exists cache', fst (put_msal_cache env name cache allow w) = Ret cache'.
Proof.
  unfold put_msal_cache, put_msal_cache_insecure, keyring_set_password, write_file,
    bind, ret.
  destruct (has_state_changed (msal env) cache); [ | eauto].
  destruct (serialize (msal env) cache) as [data cache'].
  destruct (keyring w); [eauto | ].
  destruct allow; eauto.
Qed.

(** The last two steps of the acquisition: both caches are written back and
    the token, if any, is returned. *)
Lemma persist_and_return (name : string) (cache : TC) (http_cache : HC)
    (allow : bool) (id_token : option string) (w : World) :
  let c := bind (put_msal_cache env name cache allow)
             (fun _ => bind (put_http_cache env name http_cache)
                         (fun _ => ret id_token)) in
  fst (c w) = Ret id_token
  /\ stderr (snd (c w)) = stderr w
  /\ files (snd (c w)) !! http_cache_path env name
     = Some (pickle_dumps env http_cache).
Proof.
  cbn zeta. unfold bind, put_http_cache, write_file, ret.
  fold (http_cache_path env name).
  pose proof (put_msal_cache_stderr name cache allow w) as Hs.
  destruct (put_msal_cache_returns name cache allow w) as [cache' Hr].
  destruct (put_msal_cache env name cache allow w) as [o w1].
  cbn [fst snd] in *. subst o. cbn [fst snd stderr files].
  repeat split; [exact Hs | apply lookup_insert_eq].
Qed.

Lemma acquisition_returns_inv (client_id tenant_id : string) (dc allow : bool)
    (w : World) (x : option string) :
  fst (msal_acquire_oidc_id_token env client_id tenant_id dc allow w) = Ret x ->
  (exists http_cache,
      files (snd (msal_acquire_oidc_id_token env client_id tenant_id dc allow w))
        !! http_cache_path env (keyring_name tenant_id client_id)
      = Some (pickle_dumps env http_cache))
  /\ (x = None ->
      exists pre error description,
        stderr (snd (msal_acquire_oidc_id_token env client_id tenant_id dc allow w))
        = stderr w ++ pre ++ ["Error: " +:+ error; "Description: " +:+ description]).
Proof.
  unfold msal_acquire_oidc_id_token. intros H.
  destruct (bind_Ret_inv _ _ _ _ H) as (cache & _ & E). rewrite E in H |- *. clear E.
  pose proof (get_msal_cache_stderr (keyring_name tenant_id client_id) w) as Hw1.
  set (w1 := snd (get_msal_cache env (keyring_name tenant_id client_id) w)) in *.
  clearbody w1.
  destruct (bind_Ret_inv _ _ _ _ H) as (http_cache & _ & E). rewrite E in H |- *. clear E.
  pose proof (get_http_cache_stderr (cache_name tenant_id client_id) w1) as Hw2.
  set (w2 := snd (get_http_cache env (cache_name tenant_id client_id) w1)) in *.
  clearbody w2. rewrite Hw1 in Hw2. clear Hw1 w1.
  destruct (get_accounts _ _ _) as [accounts heap].
  destruct (match accounts with [] => _ | _ :: _ => _ end) as [result heap0].
  destruct (bind_Ret_inv _ _ _ _ H) as ([result' heap1] & _ & E).
  rewrite E in H |- *. clear E.
  match type of H with
  | context [snd (?c w2)] =>
      assert (Hflow : exists pre, stderr (snd (c w2)) = stderr w2 ++ pre);
      [ | set (w3 := snd (c w2)) in *; clearbody w3 ]
  end.
  { destruct result as [r|]; [exists []; cbn; now rewrite List.app_nil_r | ].
    destruct dc; [ | exists []; cbn; now rewrite List.app_nil_r].
    destruct (initiate_device_flow _ _ _ _) as [flow heap'].
    unfold bind, lift, print_stderr, ret, raise.
    destruct (getitem flow "message") as [message|e]; cbn; [eauto | ].
    exists []. now rewrite List.app_nil_r. }
  destruct Hflow as [pre Hw3]. rewrite Hw2 in Hw3. clear Hw2 w2.
  destruct (bind_Ret_inv _ _ _ _ H) as ([id_token [cache' http_cache']] & Hfound & E).
  rewrite E in H |- *. clear E.
  match type of Hfound with
  | fst (?c w3) = _ => set (found := c) in *; set (w4 := snd (found w3)) in *
  end.
  destruct (persist_and_return (keyring_name tenant_id client_id) cache' http_cache'
              allow id_token w4) as (Hret & Herr & Hfile).
  cbn zeta in Hret, Herr, Hfile.
  split; [eauto | ].
  intros ->. rewrite Hret in H. inversion H; subst id_token. clear H Hret.
  rewrite Herr. clear Herr Hfile.
  subst w4 found.
  destruct (has_key result' "error").
  - unfold bind, lift, print_stderr, ret, raise in Hfound |- *.
    destruct (getitem result' "error") as [error|e]; [ | discriminate].
    destruct (getitem result' "error_description") as [description|e];
      [ | discriminate].
    cbn [fst snd stderr] in *. exists pre, error, description.
    rewrite Hw3. now rewrite <- !List.app_assoc.
  - exfalso. destruct (get_accounts _ _ heap1) as [accounts' heap2].
    unfold bind, lift, ret, raise in Hfound.
    destruct (head_item accounts') as [account|e]; [ | discriminate].
    destruct (getitem account "home_account_id") as [home|e]; [ | discriminate].
    destruct (head_item _) as [entry|e]; [ | discriminate].
    destruct (getitem entry "secret") as [secret|e]; discriminate.
Qed.

(** Reading a cache changes nothing. *)
Lemma get_msal_cache_world (name : string) (w : World) :
  snd (get_msal_cache env name w) = w.
Proof.
  unfold get_msal_cache, get_msal_cache_insecure, keyring_get_password, read_file,
    bind, ret.
  destruct (keyring w); [ | reflexivity].
  now destruct (negb _).
Qed.

Lemma get_http_cache_world (name : string) (w : World) :
  snd (get_http_cache env name w) = w.
Proof. reflexivity. Qed.

(** The steps of the acquisition after the broker has answered: the error
    report or the account lookup, then the two writes. *)
Lemma acquisition_tail_inv (client_id tenant_id : string) (allow : bool)
    (acquire_tokens_result : dict) (heap : TC * HC) (w : World) (x : option string) :
  let app := mkApp client_id ("https://login.microsoftonline.com/" +:+ tenant_id) in
  let tail :=
    (found <-
       (if has_key acquire_tokens_result "error" then
          error <- lift (getitem acquire_tokens_result "error");;
          print_stderr ("Error: " +:+ error);;
          description <- lift (getitem acquire_tokens_result "error_description");;
          print_stderr ("Description: " +:+ description);;
          ret (None, heap)
        else
          let '(accounts, heap) := get_accounts (msal env) app heap in
          account <- lift (head_item accounts);;
          home_account_id <- lift (getitem account "home_account_id");;
          entry <- lift (head_item
                           (cache_find_id_token (msal env) (fst heap) home_account_id));;
          secret <- lift (getitem entry "secret");;
          ret (Some secret, heap));;
     let '(id_token, (cache, http_cache)) := found in
     put_msal_cache env (keyring_name tenant_id client_id) cache allow;;
     put_http_cache env (keyring_name tenant_id client_id) http_cache;;
     ret id_token) in
  fst (tail w) = Ret x ->
  files (snd (tail w)) !! http_cache_path env (keyring_name tenant_id client_id)
  = Some (pickle_dumps env
            (snd (if has_key acquire_tokens_result "error" then heap
                  else snd (get_accounts (msal env) app heap)))).
Proof.
  cbv zeta. intros H.
  destruct (bind_Ret_inv _ _ _ _ H) as ([id_token [cache' http_cache']] & Hfound & E).
  rewrite E. clear E H.
  match type of Hfound with
  | fst (?c w) = _ => set (found := c) in *; set (w4 := snd (found w)) in *
  end.
  destruct (persist_and_return (keyring_name tenant_id client_id) cache' http_cache'
              allow id_token w4) as (_ & _ & Hfile).
  cbv zeta in Hfile. rewrite Hfile. clear Hfile. do 2 f_equal.
  subst w4 found.
  destruct (has_key acquire_tokens_result "error").
  - unfold bind, lift, print_stderr, ret, raise in Hfound.
    destruct (getitem acquire_tokens_result "error") as [error|e]; [ | discriminate].
    destruct (getitem acquire_tokens_result "error_description") as [description|e];
      [ | discriminate].
    cbn [fst] in Hfound. now inversion Hfound.
  - destruct (get_accounts _ _ heap) as [accounts' heap2].
    unfold bind, lift, ret, raise in Hfound.
    destruct (head_item accounts') as [account|e]; [ | discriminate].
    destruct (getitem account "home_account_id") as [home|e]; [ | discriminate].
    destruct (head_item _) as [entry|e]; [ | discriminate].
    destruct (getitem entry "secret") as [secret|e]; [ | discriminate].
    cbn [fst] in Hfound. now inversion Hfound.
Qed.

(** The pair of caches the last two steps of a returning acquisition write
    back is the one the broker calls left. *)
Lemma acquisition_heap_inv (client_id tenant_id : string) (dc allow : bool)
    (w : World) (x : option string) (cache0 : TC) (hc0 : HC) :
  fst (get_msal_cache env (keyring_name tenant_id client_id) w) = Ret cache0 ->
  fst (get_http_cache env (cache_name tenant_id client_id) w) = Ret hc0 ->
  fst (msal_acquire_oidc_id_token env client_id tenant_id dc allow w) = Ret x ->
  files (snd (msal_acquire_oidc_id_token env client_id tenant_id dc allow w))
    !! http_cache_path env (keyring_name tenant_id client_id)
  = Some (pickle_dumps env
            (snd (heap_after_broker env client_id tenant_id dc (cache0, hc0)))).
Proof.
  unfold msal_acquire_oidc_id_token, heap_after_broker. intros Hc Hh H.
  destruct (bind_Ret_inv _ _ _ _ H) as (cache & Hc' & E). rewrite E in H |- *. clear E.
  rewrite Hc in Hc'. inversion Hc'; subst cache. clear Hc Hc'.
  rewrite get_msal_cache_world in H |- *.
  destruct (bind_Ret_inv _ _ _ _ H) as (http_cache & Hh' & E).
  rewrite E in H |- *. clear E.
  rewrite Hh in Hh'. inversion Hh'; subst http_cache. clear Hh Hh'.
  rewrite get_http_cache_world in H |- *.
  cbv zeta in H |- *.
  destruct (get_accounts _ _ _) as [accounts heap].
  destruct (match accounts with [] => _ | _ :: _ => _ end) as [result heap0].
  destruct (bind_Ret_inv _ _ _ _ H) as ([result' heap1] & Hflow & E).
  rewrite E in H |- *. clear E.
  rewrite (acquisition_tail_inv client_id tenant_id allow result' heap1 _ x H).
  clear H. do 2 f_equal.
  destruct result as [r|].
  - unfold ret in Hflow. cbn [fst] in Hflow. now inversion Hflow.
  - destruct dc.
    + destruct (initiate_device_flow _ _ _ _) as [flow heap'].
      unfold bind, lift, print_stderr, ret, raise in Hflow.
      destruct (getitem flow "message") as [message|e]; [ | discriminate].
      cbn [fst] in Hflow. inversion Hflow as [E]. now rewrite E.
    + unfold ret in Hflow. cbn [fst] in Hflow. inversion Hflow as [E]. now rewrite E.
Qed.

End AcquisitionFacts.

(** X19: whenever the acquisition returns, with a token or without, the
    HTTP cache has been written back as the broker left it: the file under
    the keyring name holds the pickle of the HTTP cache that was read at the
    start, after every broker call of the acquisition has acted on it.  The
    keyring name is taken to be a file name. *)
Theorem acquisition_persists_http_cache :
  forall {TC HC} (env : Env TC HC) (client_id tenant_id : string)
         (device_code allow_insecure : bool) (w : World) (x : option string)
         (cache : TC) (http_cache : HC),
    plain_name (keyring_name tenant_id client_id) = true ->
    fst (get_msal_cache env (keyring_name tenant_id client_id) w) = Ret cache ->
    fst (get_http_cache env (cache_name tenant_id client_id) w) = Ret http_cache ->
    fst (msal_acquire_oidc_id_token env client_id tenant_id
           device_code allow_insecure w) = Ret x ->
    files (snd (msal_acquire_oidc_id_token env client_id tenant_id
                  device_code allow_insecure w))
      !! http_cache_path env (keyring_name tenant_id client_id)
    = Some (pickle_dumps env
              (snd (heap_after_broker env client_id tenant_id device_code
                      (cache, http_cache)))).
Proof.
  intros TC HC env c t dc allow w x cache http_cache _ Hc Hh H.
  now apply (acquisition_heap_inv env c t dc allow w x).
Qed.

Lemma acquisition_persists_http_cache_witness :
  files (snd (msal_acquire_oidc_id_token
                (Scripted.env Scripted.no_config None Scripted.denied)
                "C" "T" true false Scripted.fresh_world))
    !! http_cache_path (Scripted.env Scripted.no_config None Scripted.denied)
         (keyring_name "T" "C")
  = Some (Scripted.dumps {[ "login" := "cached" ]}).
Proof.
  apply (acquisition_persists_http_cache
           (Scripted.env Scripted.no_config None Scripted.denied)
           "C" "T" true false Scripted.fresh_world None
           (Scripted.mkCache EmptyString false) ∅);
    vm_compute; reflexivity.
Defined.

(** X20: the acquisition returns without a token only after it has written
    the broker's error and its description at the end of the diagnostic
    stream; a [get] run in which that happens ends with [DecodeError],
    having printed nothing on standard output. *)
Theorem no_token_means_error_reported :
  forall {TC HC} (env : Env TC HC) (args : Args) (stdin : list string)
         (helper_pairs : gmap string value) (client_id tenant_id : string)
         (w w' : World),
    command args = "get" ->
    read_stdin_pairs stdin = Ok helper_pairs ->
    authtype_accepted helper_pairs = true ->
    bearer_accepted helper_pairs = true ->
    resolve_identity env helper_pairs = Ok (Some client_id, Some tenant_id) ->
    msal_acquire_oidc_id_token env client_id tenant_id (device_code args)
      (insecure args) (mkWorld (keyring w) (files w) (stdout w) (stderr w) false)
    = (Ret None, w') ->
    main env args stdin w = (Raise DecodeError, w')
    /\ stdout w' = stdout w
    /\ exists pre error description,
         stderr w'
         = stderr w ++ pre ++ ["Error: " +:+ error; "Description: " +:+ description].
Proof.
  intros TC HC env args stdin hp c t w w' Hc Hr Ha Hb Hi Hacq.
  split; [now apply (main_without_token_raises env args stdin hp c t w w') | ].
  set (w0 := mkWorld (keyring w) (files w) (stdout w) (stderr w) false) in *.
  destruct (orderly_msal_acquire env c t (device_code args) (insecure args) w0)
    as (Ho & _).
  destruct (acquisition_returns_inv env c t (device_code args) (insecure args) w0 None)
    as (_ & He); [now rewrite Hacq | ].
  rewrite Hacq in Ho, He. cbn [snd] in Ho, He.
  split; [exact Ho | now apply He].
Qed.

Lemma no_token_means_error_reported_witness :
  main (Scripted.env Scripted.no_config None Scripted.denied) (mkArgs "get" true false)
    Scripted.request Scripted.fresh_world
  = (Raise DecodeError,
     snd (msal_acquire_oidc_id_token
            (Scripted.env Scripted.no_config None Scripted.denied)
            "C" "T" true false (mkWorld (Some ∅) ∅ [] [] false)))
  /\ stderr (snd (msal_acquire_oidc_id_token
                    (Scripted.env Scripted.no_config None Scripted.denied)
                    "C" "T" true false (mkWorld (Some ∅) ∅ [] [] false)))
     = ["To sign in, open the page and enter the code";
        "Error: access_denied"; "Description: The user cancelled"].
Proof.
  split; [ | vm_compute; reflexivity].
  destruct (no_token_means_error_reported
              (Scripted.env Scripted.no_config None Scripted.denied)
              (mkArgs "get" true false) Scripted.request
              {[ "protocol" := VStr "https"; "host" := VStr "dev.azure.com";
                 "capability" := VList ["authtype"];
                 "wwwauth" := VList [PyStr.drop 10 Scripted.challenge] ]}
              "C" "T" Scripted.fresh_world
              (snd (msal_acquire_oidc_id_token
                      (Scripted.env Scripted.no_config None Scripted.denied)
                      "C" "T" true false (mkWorld (Some ∅) ∅ [] [] false))))
    as [Hmain _]; [vm_compute; reflexivity .. | exact Hmain].
Defined.

(** X21: a run that returns, that is one that printed a credential, ends
    with standard output not inheritable by child processes, whatever it was
    at the start. *)
Theorem successful_run_ends_not_inheritable :
  forall {TC HC} (env : Env TC HC) (args : Args) (stdin : list string) (w : World),
    fst (main env args stdin w) = Ret tt ->
    stdout_inheritable (snd (main env args stdin w)) = false.
Proof.
  intros TC HC env args stdin w.
  unfold main, bind, when, lift, ret, exit, raise.
  destruct (negb (String.eqb (command args) "get")); [discriminate | ].
  destruct (read_stdin_pairs stdin) as [hp|e]; [ | discriminate].
  destruct (negb (authtype_accepted hp)); [discriminate | ].
  destruct (negb (bearer_accepted hp)); [discriminate | ].
  destruct (resolve_identity env hp) as [[c t]|e]; [ | discriminate].
  destruct c as [c|], t as [t|]; cbn [is_none]; try discriminate.
  unfold set_inheritable_stdout.
  match goal with
  | |- context [msal_acquire_oidc_id_token env c t ?d ?i ?w0] =>
      destruct (orderly_msal_acquire env c t d i w0) as (_ & Hi & _);
      destruct (msal_acquire_oidc_id_token env c t d i w0) as [[tok|e|z] w1]
  end; cbn [fst snd stdout_inheritable] in *; try discriminate.
  destruct (jwt_expired_value env tok) as [expiry|e]; [ | discriminate].
  intros _. exact Hi.
Qed.

Lemma successful_run_ends_not_inheritable_witness :
  stdout_inheritable
    (snd (main (Scripted.env Scripted.no_config None {[ "id_token" := "x" ]})
            (mkArgs "get" false false) Scripted.request Scripted.fresh_world))
  = false.
Proof.
  apply (successful_run_ends_not_inheritable
           (Scripted.env Scripted.no_config None {[ "id_token" := "x" ]})
           (mkArgs "get" false false) Scripted.request Scripted.fresh_world).
  vm_compute. reflexivity.
Defined.
